(** * openplanetdata.com: manifest loading, checksum enrichment and formatting

    A shallow embedding of the download page's logic:
    - [src/app/page.tsx]            (module [PageTsx]: category-keyed manifest, no sort),
    - [src/unnamed/part_000], 1st   (module [Planet]:  array manifest [planet.metadata]),
    - [src/unnamed/part_000], 2nd   (module [Legacy]:  category-keyed manifest, sorted),
    together with the two helpers [humanFileSize] and [truncateHash], which are
    textually the same in the three files, the time-zone section of the two
    pages of [part_000] (modules [Tz], [PlanetTz], [LegacyTz]) and the
    handlers of a table row (modules [HashRow], [PlanetRow], [LegacyRow]).

    ECMAScript built-ins that the pages call are modelled in module [JS]:
    strings are sequences of UTF-16 code units, numbers are the extended
    rationals, promises are their settled outcome. *)

From Stdlib Require Import Ascii String.
From Stdlib Require Import List ZArith QArith Qabs Lia Bool.
From Stdlib Require Import Sorted Permutation.
From Stdlib Require Import Qround DecimalString.
Import ListNotations.

Close Scope Q_scope.
Set Implicit Arguments.

(* ================================================================== *)
(** ** ECMAScript values used by the pages                              *)
(* ================================================================== *)

Module JS.

(** *** Strings: sequences of UTF-16 code units *)

Definition code_unit := N.
Definition jsstring := list code_unit.

(** An ASCII literal of the source, as code units. *)
Fixpoint lit (s : string) : jsstring :=
  match s with
  | EmptyString => []
  | String c r => N_of_ascii c :: lit r
  end.

Definition str_eq_dec : forall a b : jsstring, {a = b} + {a <> b} :=
  list_eq_dec N.eq_dec.

Definition str_eqb (a b : jsstring) : bool :=
  if str_eq_dec a b then true else false.

(** [s.length] *)
Definition str_length (s : jsstring) : Z := Z.of_nat (length s).

(** [s.split(sep)] for a separator of one code unit, which is the only use
    in the pages ([" "], ["/"], ["."]).  The result is never empty. *)
Fixpoint split (sep : code_unit) (s : jsstring) : list jsstring :=
  match s with
  | [] => [[]]
  | c :: r =>
      if N.eqb c sep then [] :: split sep r
      else match split sep r with
           | p :: ps => (c :: p) :: ps
           | [] => [[c]]
           end
  end.

(** [a[i]]: [None] stands for [undefined]. *)
Definition index {A} (a : list A) (i : nat) : option A := nth_error a i.

(** [a.pop()], as far as its result goes: the last element, or [undefined]. *)
Fixpoint pop {A} (a : list A) : option A :=
  match a with
  | [] => None
  | [x] => Some x
  | _ :: r => pop r
  end.

(** [v || ""] for a string or [undefined]: the empty string is falsy. *)
Definition or_empty (v : option jsstring) : jsstring :=
  match v with
  | Some (c :: r) => c :: r
  | _ => []
  end.

(** WhiteSpace and LineTerminator code points of ECMAScript, which
    [String.prototype.trim] removes. *)
Definition is_white_space (c : code_unit) : bool :=
  ((9 <=? c) && (c <=? 13) || (c =? 32) || (c =? 160) || (c =? 5760)
   || (8192 <=? c) && (c <=? 8202) || (c =? 8232) || (c =? 8233)
   || (c =? 8239) || (c =? 8287) || (c =? 12288) || (c =? 65279))%N.

Fixpoint trimStart (s : jsstring) : jsstring :=
  match s with
  | [] => []
  | c :: r => if is_white_space c then trimStart r else s
  end.

Definition trimEnd (s : jsstring) : jsstring := rev (trimStart (rev s)).

Definition trim (s : jsstring) : jsstring := trimEnd (trimStart s).

(** [s.slice(start, end)]; [None] for an omitted [end]. *)
Definition clamp_index (len i : Z) : Z :=
  if (i <? 0)%Z then Z.max (len + i) 0 else Z.min i len.

Definition slice (s : jsstring) (start : Z) (end_ : option Z) : jsstring :=
  let len := str_length s in
  let from := clamp_index len start in
  let final := match end_ with None => len | Some e => clamp_index len e end in
  let span := Z.max (final - from) 0 in
  firstn (Z.to_nat span) (skipn (Z.to_nat from) s).

(** Code-unit lexicographic comparison, with the sign convention of a
    comparator: negative, zero or positive. *)
Fixpoint lex_compare (a b : jsstring) : Z :=
  match a, b with
  | [], [] => 0
  | [], _ :: _ => -1
  | _ :: _, [] => 1
  | x :: a', y :: b' =>
      match N.compare x y with
      | Lt => -1
      | Gt => 1
      | Eq => lex_compare a' b'
      end
  end.

(** [s.startsWith(pat)], as the matching step of [replace]. *)
Fixpoint starts_with (pat s : jsstring) : bool :=
  match pat, s with
  | [], _ => true
  | _ :: _, [] => false
  | p :: pat', c :: s' => N.eqb p c && starts_with pat' s'
  end.

(** [s.replace(pat, rep)] for a string pattern and a replacement that holds
    no [$]: the first occurrence of [pat], if there is one, is replaced. *)
Fixpoint replace (pat rep s : jsstring) {struct s} : jsstring :=
  if starts_with pat s then rep ++ skipn (length pat) s
  else match s with
       | [] => []
       | c :: r => c :: replace pat rep r
       end.

(** [s.includes(pat)] *)
Fixpoint includes (pat s : jsstring) {struct s} : bool :=
  starts_with pat s
  || match s with
     | [] => false
     | _ :: r => includes pat r
     end.

(** [a.join(sep)] for an array of strings. *)
Fixpoint join (sep : jsstring) (a : list jsstring) : jsstring :=
  match a with
  | [] => []
  | [x] => x
  | x :: r => x ++ sep ++ join sep r
  end.

(** *** Numbers

    A Number is NaN, an infinity or a finite value; every finite double is a
    rational, so finite values are carried by [Q].  The sign of zero is not
    tracked. *)

Inductive number : Type :=
  | NaN
  | Infinity (negative : bool)
  | Finite (q : Q).

Definition of_Z (z : Z) : number := Finite (inject_Z z).

(** [Math.abs] *)
Definition abs (x : number) : number :=
  match x with
  | NaN => NaN
  | Infinity _ => Infinity false
  | Finite q => Finite (Qabs q)
  end.

(** [x < y] and [x >= y] on Numbers; both are false when an operand is NaN. *)
Definition lt (x y : number) : bool :=
  match x, y with
  | NaN, _ | _, NaN => false
  | Infinity true, Infinity true => false
  | Infinity true, _ => true
  | _, Infinity true => false
  | Infinity false, _ => false
  | Finite _, Infinity false => true
  | Finite p, Finite q => negb (Qle_bool q p)
  end.

Definition ge (x y : number) : bool :=
  match x, y with
  | NaN, _ | _, NaN => false
  | _, _ => negb (lt x y)
  end.

(** [x / d] for a finite positive divisor [d].  For a power of two such as
    1024 the quotient of a double of magnitude at least [d] is exact, which
    is the only case in which the pages divide a finite value. *)
Definition div_by (x : number) (d : Q) : number :=
  match x with
  | NaN => NaN
  | Infinity s => Infinity s
  | Finite q => Finite (q / d)
  end.

(** A finite value that is an integer and not negative. *)
Definition is_nonneg_integer (x : number) : bool :=
  match x with
  | Finite q => Qle_bool 0 q && Z.eqb (Qnum q mod Zpos (Qden q)) 0
  | _ => false
  end.

(** Rounding of a non-negative integer to the nearest double, ties to even;
    integers below 2^53 are exact, and 2^1024 is out of range. *)
Definition round_to_double (n : Z) : number :=
  if (n <? 2 ^ 53)%Z then of_Z n
  else
    let e := (Z.log2 n - 52)%Z in
    let q := Z.shiftr n e in
    let r := (n - Z.shiftl q e)%Z in
    let half := Z.shiftl 1 (e - 1) in
    let q' := if (r <? half)%Z then q
              else if (half <? r)%Z then (q + 1)%Z
              else if Z.even q then q else (q + 1)%Z in
    let v := Z.shiftl q' e in
    if (2 ^ 1024 <=? v)%Z then Infinity false else of_Z v.

(** [parseInt(s, 10)]: leading white space is skipped, one sign is read, then
    the longest run of decimal digits; no digit gives NaN. *)
Definition digit_value (c : code_unit) : option Z :=
  if ((48 <=? c) && (c <=? 57))%N then Some (Z.of_N c - 48)%Z else None.

Fixpoint digits_prefix (s : jsstring) : list Z :=
  match s with
  | [] => []
  | c :: r => match digit_value c with
              | Some d => d :: digits_prefix r
              | None => []
              end
  end.

Definition digits_value (ds : list Z) : Z :=
  fold_left (fun acc d => (10 * acc + d)%Z) ds 0%Z.

Definition negate (x : number) : number :=
  match x with
  | NaN => NaN
  | Infinity s => Infinity (negb s)
  | Finite q => Finite (- q)
  end.

Definition parseInt10 (s : jsstring) : number :=
  let s := trimStart s in
  let '(negative, s) :=
    match s with
    | c :: r => if (c =? 45)%N then (true, r)
                else if (c =? 43)%N then (false, r)
                else (false, s)
    | [] => (false, s)
    end in
  match digits_prefix s with
  | [] => NaN
  | ds => let m := round_to_double (digits_value ds) in
          if negative then negate m else m
  end.

(** *** Promises, by their outcome *)

Inductive error : Type :=
  | NetworkFailure      (* fetch rejected *)
  | BodyFailure         (* reading the body rejected *)
  | SyntaxError         (* the body is not JSON *)
  | TypeError.          (* a property of undefined, a call of a non-function *)

Inductive Settled (A : Type) : Type :=
  | Fulfilled (a : A)
  | Rejected (e : error).
Arguments Rejected {A} e.

(** [Promise.all] over promises that have settled: the values in input
    order, or the first rejection. *)
Fixpoint promise_all {A} (ps : list (Settled A)) : Settled (list A) :=
  match ps with
  | [] => Fulfilled []
  | Rejected e :: _ => Rejected e
  | Fulfilled a :: r =>
      match promise_all r with
      | Fulfilled l => Fulfilled (a :: l)
      | Rejected e => Rejected e
      end
  end.

(** *** [Array.prototype.sort]

    The sort is stable and, for a consistent comparator, its result is
    the stable sorted arrangement, which insertion from the right computes:
    [b] goes before [a] only when [cmp a b > 0]. *)
Section Sort.
Variable A : Type.
Variable cmp : A -> A -> Z.

Fixpoint insert (x : A) (l : list A) : list A :=
  match l with
  | [] => [x]
  | y :: r => if (cmp x y <=? 0)%Z then x :: y :: r else y :: insert x r
  end.

Fixpoint sort (l : list A) : list A :=
  match l with
  | [] => []
  | x :: r => insert x (sort r)
  end.
End Sort.

End JS.

Import JS.

(* ================================================================== *)
(** ** Data model                                                       *)
(* ================================================================== *)

(** A manifest field typed [string | number]. *)
Inductive StringOrNumber : Type :=
  | Num (n : number)
  | Str (s : jsstring).

(** [interface FileItem].  [size] is declared [number]; at run time it holds
    whatever the loader stored, so the model keeps both representations. *)
Record FileItem : Type := mkFileItem {
  created : number;
  deprecated : option bool;
  deprecation_reason : option jsstring;
  filename : jsstring;
  kind : jsstring;
  size : StringOrNumber;
  sha256 : option jsstring;
  url : jsstring;
  version : option jsstring
}.

(** [{ ...item, sha256: h }] *)
Definition with_sha256 (item : FileItem) (h : jsstring) : FileItem :=
  {| created := created item;
     deprecated := deprecated item;
     deprecation_reason := deprecation_reason item;
     filename := filename item;
     kind := kind item;
     size := size item;
     sha256 := Some h;
     url := url item;
     version := version item |}.

(** [interface PlanetMetadata], an element of the array manifest. *)
Module PlanetMetadata.
Record t : Type := mk {
  created : number;
  deprecated : option bool;
  deprecation_reason : option jsstring;
  format : jsstring;
  remote_filename : jsstring;
  remote_path : jsstring;
  remote_version : jsstring;
  size : StringOrNumber;
  tags : list jsstring
}.
End PlanetMetadata.

(** An element of a category of the object manifest [metadata.json]. *)
Module Entry.
Record t : Type := mk {
  url : jsstring;
  size : StringOrNumber;
  created : number
}.
End Entry.

(** The parsed manifest, in one of its two shapes.  The properties of the
    object shape are listed in the order of [Object.entries]. *)
Inductive Manifest : Type :=
  | ByCategory (categories : list (jsstring * list Entry.t))
  | FlatArray (elements : list PlanetMetadata.t).

(** What a [fetch] resolves to: the status, and what [r.text()] and
    [r.json()] settle to.  The pages never look at the status. *)
Record Response : Type := mkResponse {
  status : Z;
  text : Settled jsstring;
  json : Settled Manifest
}.

(** The network: the outcome of [fetch] for each address. *)
Definition Network : Type := jsstring -> Settled Response.

(** The state a page load acts on: the requests issued so far, in order,
    and the two React states of the section. *)
Record World : Type := mkWorld {
  requests : list jsstring;
  files : list FileItem;
  loading : bool
}.

(** [useState<FileItem[]>([])], [useState(true)], nothing requested yet. *)
Definition initial : World :=
  {| requests := []; files := []; loading := true |}.

(* ================================================================== *)
(** ** Asynchronous code: outcome and state passing                     *)
(* ================================================================== *)

Definition Async (A : Type) : Type := Network -> World -> Settled A * World.

Definition ret {A} (a : A) : Async A := fun _ w => (Fulfilled a, w).

Definition throw {A} (e : error) : Async A := fun _ w => (Rejected e, w).

Definition bind {A B} (m : Async A) (k : A -> Async B) : Async B :=
  fun net w =>
    match m net w with
    | (Fulfilled a, w') => k a net w'
    | (Rejected e, w') => (Rejected e, w')
    end.

Notation "x <- m ;; k" := (bind m (fun x => k))
  (at level 61, m at next level, right associativity).
Notation "m ;;; k" := (bind m (fun _ => k))
  (at level 61, right associativity).

(** [await p] for a promise that has settled. *)
Definition await {A} (p : Settled A) : Async A := fun _ w => (p, w).

(** [try { m } catch { h }] *)
Definition try_catch {A} (m : Async A) (h : Async A) : Async A :=
  fun net w =>
    match m net w with
    | (Fulfilled a, w') => (Fulfilled a, w')
    | (Rejected _, w') => h net w'
    end.

(** [try { m } finally { f }] *)
Definition try_finally {A} (m : Async A) (f : Async unit) : Async A :=
  fun net w =>
    match m net w with
    | (r, w') =>
        match f net w' with
        | (Fulfilled _, w'') => (r, w'')
        | (Rejected e, w'') => (Rejected e, w'')
        end
    end.

(** [fetch(address)]: the request is recorded, the network answers. *)
Definition fetch (address : jsstring) : Async Response :=
  fun net w =>
    (net address,
     {| requests := requests w ++ [address];
        files := files w;
        loading := loading w |}).

Definition setFiles (fs : list FileItem) : Async unit :=
  fun _ w =>
    (Fulfilled tt,
     {| requests := requests w; files := fs; loading := loading w |}).

Definition setLoading (b : bool) : Async unit :=
  fun _ w =>
    (Fulfilled tt,
     {| requests := requests w; files := files w; loading := b |}).

(** [items.map(async item => ...)]: the callbacks start in array order and
    each yields a promise.  The callbacks share no state besides the request
    log, so running each one to its settlement before the next starts gives
    the same promises and the same order of requests. *)
Fixpoint map_async {A B} (f : A -> Async B) (l : list A)
  : Network -> World -> list (Settled B) * World :=
  fun net w =>
    match l with
    | [] => ([], w)
    | x :: r =>
        let '(p, w1) := f x net w in
        let '(ps, w2) := map_async f r net w1 in
        (p :: ps, w2)
    end.

(** [await Promise.all(items.map(async item => ...))] *)
Definition await_all {A B} (f : A -> Async B) (l : list A) : Async (list B) :=
  fun net w =>
    let '(ps, w') := map_async f l net w in
    (promise_all ps, w').

(* ================================================================== *)
(** ** Checksum enrichment (the same text in the three pages)           *)
(* ================================================================== *)

Definition space : code_unit := 32%N.
Definition slash : code_unit := 47%N.
Definition dot : code_unit := 46%N.

(** [text.split(" ")[0].trim()]; a method call on [undefined] throws. *)
Definition first_token (body : jsstring) : Async jsstring :=
  match index (split space body) 0 with
  | Some t => ret (trim t)
  | None => throw TypeError
  end.

(** The callback of [items.map] in [withHash]:
    [try { text = await fetch(url + ".sha256").then(r => r.text());
           return {...item, sha256: text.split(" ")[0].trim()} }
     catch { return {...item, sha256: "N/A"} }] *)
Definition enrich (item : FileItem) : Async FileItem :=
  try_catch
    (r <- fetch (url item ++ lit ".sha256") ;;
     body <- await (text r) ;;
     h <- first_token body ;;
     ret (with_sha256 item h))
    (ret (with_sha256 item (lit "N/A"))).

Definition withHash (items : list FileItem) : Async (list FileItem) :=
  await_all enrich items.

(** The comparator of the sort:
    [extA = a.filename.split('.').pop() || ''], then [localeCompare]. *)
Definition extension (f : FileItem) : jsstring :=
  or_empty (pop (split dot (filename f))).

Definition by_extension (localeCompare : jsstring -> jsstring -> Z)
    (a b : FileItem) : Z :=
  localeCompare (extension a) (extension b).

(* ================================================================== *)
(** ** Formatting helpers                                               *)
(* ================================================================== *)

Section Format.
(** Number-to-string conversion and [toFixed(1)] are taken as given. *)
Variable numberToString : number -> jsstring.
Variable toFixed1 : number -> jsstring.

Definition thresh : Q := 1024%Q.

Definition units : list jsstring :=
  [lit "KiB"; lit "MiB"; lit "GiB"; lit "TiB"; lit "PiB"; lit "EiB"].

(** [units[u]] inside a template literal; [undefined] prints its name. *)
Definition unit_at (u : Z) : jsstring :=
  match (if (u <? 0)%Z then None else index units (Z.to_nat u)) with
  | Some s => s
  | None => lit "undefined"
  end.

(** [do { bytes /= thresh; ++u; }
     while (Math.abs(bytes) >= thresh && u < units.length - 1);]
    Each iteration of the body uses one unit of fuel. *)
Fixpoint do_while (fuel : nat) (bytes : number) (u : Z)
  : option (number * Z) :=
  match fuel with
  | O => None
  | S fuel' =>
      let bytes := div_by bytes thresh in
      let u := (u + 1)%Z in
      if ge (abs bytes) (Finite thresh)
         && (u <? Z.of_nat (length units) - 1)%Z
      then do_while fuel' bytes u
      else Some (bytes, u)
  end.

Definition humanFileSize (fuel : nat) (bytes : number) : option jsstring :=
  if lt (abs bytes) (Finite thresh) then Some (numberToString bytes ++ lit " B")
  else
    match do_while fuel bytes (-1)%Z with
    | Some (bytes, u) => Some (toFixed1 bytes ++ lit " " ++ unit_at u)
    | None => None
    end.
End Format.

Definition ellipsis : code_unit := 8230%N.

(** [hash && hash.length > 16 ? `${hash.slice(0, 8)}…${hash.slice(-8)}` : hash];
    [None] is [undefined], and the empty string is falsy. *)
Definition truncateHash (hash : option jsstring) : option jsstring :=
  match hash with
  | Some (c :: r) =>
      let h := c :: r in
      if (str_length h >? 16)%Z
      then Some (slice h 0 (Some 8%Z) ++ [ellipsis] ++ slice h (-8) None)
      else hash
  | _ => hash
  end.

(* ================================================================== *)
(** ** [src/app/page.tsx]                                               *)
(* ================================================================== *)

Module PageTsx.

Definition metadata_url : jsstring :=
  lit "https://download.openplanetdata.com/osm/metadata.json".

(** [filename = item.url.split("/").pop() || ""], then
    [{ ...item, kind, filename }]: the entry's fields are copied as they are. *)
Definition item_of (kind : jsstring) (item : Entry.t) : FileItem :=
  let filename := or_empty (pop (split slash (Entry.url item))) in
  {| created := Entry.created item;
     deprecated := None;
     deprecation_reason := None;
     filename := filename;
     kind := kind;
     size := Entry.size item;
     sha256 := None;
     url := Entry.url item;
     version := None |}.

(** [Object.entries(data).forEach(([kind, arr]) => arr.forEach(item =>
    items.push(...)))].  On a non-empty array manifest [arr] is an element,
    which has no [forEach]. *)
Definition items_of (data : Manifest) : Async (list FileItem) :=
  match data with
  | ByCategory categories =>
      ret (flat_map (fun '(kind, arr) => map (item_of kind) arr) categories)
  | FlatArray [] => ret []
  | FlatArray (_ :: _) => throw TypeError
  end.

(** The body of the effect. *)
Definition effect : Async unit :=
  try_finally
    (res <- fetch metadata_url ;;
     data <- await (json res) ;;
     items <- items_of data ;;
     withHash <- withHash items ;;
     setFiles withHash)
    (setLoading false).

(** The page state once the effect has run. *)
Definition Page (net : Network) : World := snd (effect net initial).

End PageTsx.

(* ================================================================== *)
(** ** [src/unnamed/part_000], first page: the array manifest           *)
(* ================================================================== *)

Module Planet.
Section Page.
(** [String.prototype.toUpperCase] and [localeCompare] are taken as given. *)
Variable toUpperCase : jsstring -> jsstring.
Variable localeCompare : jsstring -> jsstring -> Z.

Definition metadata_url : jsstring :=
  lit "https://download.openplanetdata.com/osm/planet.metadata".

Definition base : jsstring := lit "https://download.openplanetdata.com/".

(** The loading flag of this section is [osmLoading]. *)
Definition setOsmLoading : bool -> Async unit := setLoading.

(** The callback of [data.map]. *)
Definition item_of (item : PlanetMetadata.t) : FileItem :=
  let url := base ++ PlanetMetadata.remote_path item ++ lit "/v"
             ++ PlanetMetadata.remote_version item ++ lit "/"
             ++ PlanetMetadata.remote_filename item in
  let filename := PlanetMetadata.remote_filename item in
  let kind := toUpperCase (PlanetMetadata.format item) in
  let size := match PlanetMetadata.size item with
              | Str s => Num (parseInt10 s)
              | Num n => Num n
              end in
  {| created := PlanetMetadata.created item;
     deprecated := PlanetMetadata.deprecated item;
     deprecation_reason := PlanetMetadata.deprecation_reason item;
     filename := filename;
     kind := kind;
     size := size;
     sha256 := None;
     url := url;
     version := Some (PlanetMetadata.remote_version item) |}.

(** [data.map(...)]; an object has no [map]. *)
Definition items_of (data : Manifest) : Async (list FileItem) :=
  match data with
  | FlatArray elements => ret (map item_of elements)
  | ByCategory _ => throw TypeError
  end.

Definition effect : Async unit :=
  try_finally
    (res <- fetch metadata_url ;;
     data <- await (json res) ;;
     items <- items_of data ;;
     withHash <- withHash items ;;
     let sorted := sort (by_extension localeCompare) withHash in
     setFiles sorted)
    (setOsmLoading false).

Definition Page (net : Network) : World := snd (effect net initial).
End Page.
End Planet.

(* ================================================================== *)
(** ** [src/unnamed/part_000], second page: object manifest, sorted     *)
(* ================================================================== *)

Module Legacy.
Section Page.
Variable localeCompare : jsstring -> jsstring -> Z.

Definition metadata_url : jsstring := PageTsx.metadata_url.

Definition item_of : jsstring -> Entry.t -> FileItem := PageTsx.item_of.

Definition items_of : Manifest -> Async (list FileItem) := PageTsx.items_of.

Definition setOsmLoading : bool -> Async unit := setLoading.

Definition effect : Async unit :=
  try_finally
    (res <- fetch metadata_url ;;
     data <- await (json res) ;;
     items <- items_of data ;;
     withHash <- withHash items ;;
     let sorted := sort (by_extension localeCompare) withHash in
     setFiles sorted)
    (setOsmLoading false).

Definition Page (net : Network) : World := snd (effect net initial).
End Page.
End Legacy.

(* ================================================================== *)
(** ** Vocabulary of the properties                                     *)
(* ================================================================== *)

(** The address of a record's checksum companion. *)
Definition checksum_url (item : FileItem) : jsstring :=
  url item ++ lit ".sha256".

(** A world with further requests on its log. *)
Definition requested (w : World) (addresses : list jsstring) : World :=
  {| requests := requests w ++ addresses;
     files := files w;
     loading := loading w |}.

(** Closed form of what [enrich] stores for a given outcome of the fetch;
    [enrich_run] below proves that [enrich] computes it. *)
Definition digest_of (outcome : Settled Response) : jsstring :=
  match outcome with
  | Fulfilled r =>
      match text r with
      | Fulfilled body => trim (hd [] (split space body))
      | Rejected _ => lit "N/A"
      end
  | Rejected _ => lit "N/A"
  end.

Definition enriched (net : Network) (item : FileItem) : FileItem :=
  with_sha256 item (digest_of (net (checksum_url item))).

(** The checksum fetch rejected: [fetch] itself, or the reading of the body. *)
Definition rejected (outcome : Settled Response) : Prop :=
  match outcome with
  | Rejected _ => True
  | Fulfilled r => match text r with Rejected _ => True | Fulfilled _ => False end
  end.

(** A well-formed lowercase hexadecimal digest: not empty, digits [0-9a-f]. *)
Definition is_lower_hex (c : code_unit) : bool :=
  ((48 <=? c) && (c <=? 57) || (97 <=? c) && (c <=? 102))%N.

Definition is_hex_digest (s : jsstring) : bool :=
  match s with
  | [] => false
  | _ => forallb is_lower_hex s
  end.

(** A string of decimal digits, and the integer it denotes. *)
Definition is_digit (c : code_unit) : bool := ((48 <=? c) && (c <=? 57))%N.

Definition decimal_value (s : jsstring) : Z :=
  digits_value (map (fun c => Z.of_N c - 48)%Z s).

(** A [size] that is a Number holding a non-negative integer. *)
Definition size_is_nonneg_integer (v : StringOrNumber) : bool :=
  match v with
  | Num n => is_nonneg_integer n
  | Str _ => false
  end.

(** A consistent comparator, as [Array.prototype.sort] expects: its sign
    makes a total preorder. *)
Record consistent (A : Type) (cmp : A -> A -> Z) : Prop := {
  cmp_refl : forall a, cmp a a = 0%Z;
  cmp_sign : forall a b, (cmp a b < 0)%Z <-> (0 < cmp b a)%Z;
  cmp_trans : forall a b c, (cmp a b <= 0)%Z -> (cmp b c <= 0)%Z -> (cmp a c <= 0)%Z
}.

(** [a] may stand before [b] in ascending order under a comparator. *)
Definition ascending (A : Type) (cmp : A -> A -> Z) (a b : A) : Prop :=
  (cmp a b <= 0)%Z.

(** The manifest request rejected (a network error), or the reading of
    its body as JSON rejected.  The status of an answer plays no part here,
    as no page looks at it: an answer with status 500 belongs here only when
    its body is not JSON. *)
Definition manifest_rejected (net : Network) (address : jsstring) : Prop :=
  (exists e, net address = Rejected e) \/
  (exists res e, net address = Fulfilled res /\ json res = Rejected e).

(** The records of an object manifest, in the order of the loop of
    [PageTsx.items_of]. *)
Definition object_items (categories : list (jsstring * list Entry.t))
  : list FileItem :=
  flat_map (fun '(kind, arr) => map (PageTsx.item_of kind) arr) categories.

(** The number of entries of an object manifest, over all its categories. *)
Definition entry_count (categories : list (jsstring * list Entry.t)) : nat :=
  list_sum (map (fun c => length (snd c)) categories).

(* ================================================================== *)
(** ** Sample data                                                      *)
(* ================================================================== *)

Module Sample.

(** A 200 response with a text body, for a checksum companion. *)
Definition ok (body : jsstring) : Settled Response :=
  Fulfilled {| status := 200; text := Fulfilled body; json := Rejected SyntaxError |}.

(** A 404 response with the usual short body. *)
Definition not_found : Settled Response :=
  Fulfilled {| status := 404; text := Fulfilled (lit "Not Found");
               json := Rejected SyntaxError |}.

(** A 200 response carrying a manifest; its text is not read. *)
Definition manifest (m : Manifest) : Settled Response :=
  Fulfilled {| status := 200; text := Fulfilled []; json := Fulfilled m |}.

Definition entry (address : string) (sz : StringOrNumber) : Entry.t :=
  {| Entry.url := lit address; Entry.size := sz;
     Entry.created := of_Z 1700000000 |}.

(** The manifest of the specification's scenario:
    one category [pbf] with [https://x/a.pbf], size the string [100]. *)
Definition scenario : Manifest :=
  ByCategory [(lit "pbf", [entry "https://x/a.pbf" (Str (lit "100"))])].

(** Two categories, listed [pbf] first. *)
Definition two_formats : Manifest :=
  ByCategory [(lit "pbf", [entry "https://x/a.pbf" (Num (of_Z 100))]);
              (lit "gol", [entry "https://x/a.gol" (Num (of_Z 200))])].

Definition planet_element (fmt file : string) (sz : StringOrNumber)
  : PlanetMetadata.t :=
  {| PlanetMetadata.created := of_Z 1700000000;
     PlanetMetadata.deprecated := Some false;
     PlanetMetadata.deprecation_reason := Some [];
     PlanetMetadata.format := lit fmt;
     PlanetMetadata.remote_filename := lit file;
     PlanetMetadata.remote_path := lit "osm/planet";
     PlanetMetadata.remote_version := lit "1";
     PlanetMetadata.size := sz;
     PlanetMetadata.tags := [] |}.

Definition planet_two : Manifest :=
  FlatArray [planet_element "pbf" "planet.osm.pbf" (Str (lit "85899345920"));
             planet_element "gol" "planet.gol" (Num (of_Z 200))].

Definition a_pbf : FileItem :=
  PageTsx.item_of (lit "pbf") (entry "https://x/a.pbf" (Num (of_Z 100))).

Definition a_gol : FileItem :=
  PageTsx.item_of (lit "gol") (entry "https://x/a.gol" (Num (of_Z 200))).

(** Networks.  [serving m] answers the manifest address with [m] and every
    checksum request with a [sha256sum] line. *)
Definition serving (address : jsstring) (m : Manifest) : Network :=
  fun a =>
    if str_eqb a address then manifest m
    else ok (lit "deadbeef  file" ++ [10%N]).

Definition offline : Network := fun _ => Rejected NetworkFailure.

Definition all_not_found : Network := fun _ => not_found.

Definition all_ok (body : jsstring) : Network := fun _ => ok body.

(** The first record's checksum fetch fails, the second one's succeeds. *)
Definition first_fails : Network :=
  fun a =>
    if str_eqb a (checksum_url a_pbf) then Rejected NetworkFailure
    else ok (lit "cafe0123  a.gol" ++ [10%N]).



(** An ASCII upper-casing, to run the array page on samples. *)
Definition ascii_upper (s : jsstring) : jsstring :=
  map (fun c => if ((97 <=? c) && (c <=? 122))%N then (c - 32)%N else c) s.

End Sample.

(* ================================================================== *)
(** ** The time-zone section of the two pages of [part_000]            *)
(* ================================================================== *)

(** The body of [planet-latest.tz.parquet.metadata]. *)
Module Meta.
Record t : Type := mk {
  created : number;
  size : StringOrNumber
}.
End Meta.

Module Tz.

(** What a [fetch] of this section resolves to; [r.json()] is a [Meta.t]. *)
Record Answer : Type := mkAnswer {
  answer_status : Z;
  answer_text : Settled jsstring;
  answer_json : Settled Meta.t
}.

Definition Net : Type := jsstring -> Settled Answer.

(** The requests of the section and its two React states,
    [useState<FileItem | null>(null)] and [useState(true)]. *)
Record State : Type := mkState {
  asked : list jsstring;
  tzFile : option FileItem;
  tzLoading : bool
}.

Definition start : State := {| asked := []; tzFile := None; tzLoading := true |}.

Definition Eff (A : Type) : Type := Net -> State -> Settled A * State.

Definition pure {A} (a : A) : Eff A := fun _ s => (Fulfilled a, s).

Definition raise {A} (e : error) : Eff A := fun _ s => (Rejected e, s).

Definition and_then {A B} (m : Eff A) (k : A -> Eff B) : Eff B :=
  fun net s =>
    match m net s with
    | (Fulfilled a, s') => k a net s'
    | (Rejected e, s') => (Rejected e, s')
    end.

Notation "x <~ m ;; k" := (and_then m (fun x => k))
  (at level 61, m at next level, right associativity).

Definition settled {A} (p : Settled A) : Eff A := fun _ s => (p, s).

Definition catching {A} (m : Eff A) (h : Eff A) : Eff A :=
  fun net s =>
    match m net s with
    | (Fulfilled a, s') => (Fulfilled a, s')
    | (Rejected _, s') => h net s'
    end.

Definition finally {A} (m : Eff A) (f : Eff unit) : Eff A :=
  fun net s =>
    match m net s with
    | (r, s') =>
        match f net s' with
        | (Fulfilled _, s'') => (r, s'')
        | (Rejected e, s'') => (Rejected e, s'')
        end
    end.

Definition get (address : jsstring) : Eff Answer :=
  fun net s =>
    (net address,
     {| asked := asked s ++ [address]; tzFile := tzFile s; tzLoading := tzLoading s |}).

Definition setTzFile (f : FileItem) : Eff unit :=
  fun _ s =>
    (Fulfilled tt, {| asked := asked s; tzFile := Some f; tzLoading := tzLoading s |}).

Definition setTzLoading (b : bool) : Eff unit :=
  fun _ s =>
    (Fulfilled tt, {| asked := asked s; tzFile := tzFile s; tzLoading := b |}).

(** [text.split(" ")[0].trim()] *)
Definition token (body : jsstring) : Eff jsstring :=
  match index (split space body) 0 with
  | Some t => pure (trim t)
  | None => raise TypeError
  end.

(** The effect, for the address and the kind the page hard-codes:
    [meta = await fetch(baseUrl + ".metadata").then(r => r.json())];
    [sha] from [baseUrl + ".sha256"], or ["N/A"] if that throws;
    [setTzFile({...})]; finally [setTzLoading(false)]. *)
Definition effect (baseUrl kind : jsstring) : Eff unit :=
  finally
    (r <~ get (baseUrl ++ lit ".metadata") ;;
     meta <~ settled (answer_json r) ;;
     sha <~ catching
              (r' <~ get (baseUrl ++ lit ".sha256") ;;
               body <~ settled (answer_text r') ;;
               token body)
              (pure (lit "N/A")) ;;
     setTzFile
       {| created := Meta.created meta;
          deprecated := None;
          deprecation_reason := None;
          filename := or_empty (pop (split slash baseUrl));
          kind := kind;
          size := Meta.size meta;
          sha256 := Some sha;
          url := baseUrl;
          version := None |})
    (setTzLoading false).

(** What the table body of the section shows:
    [tzLoading ? spinner : tzFile ? <HashRow file={tzFile} /> : null]. *)
Inductive View : Type :=
  | Spinner
  | Row (file : FileItem)
  | Nothing.

Definition view (s : State) : View :=
  if tzLoading s then Spinner
  else match tzFile s with
       | Some f => Row f
       | None => Nothing
       end.

End Tz.

(** The first page of [part_000]. *)
Module PlanetTz.
Definition baseUrl : jsstring :=
  lit "https://download.openplanetdata.com/tz/planet/geoparquet/v1/planet-latest.tz.parquet".
Definition Page (net : Tz.Net) : Tz.State :=
  snd (Tz.effect baseUrl (lit "PARQUET") net Tz.start).
End PlanetTz.

(** The second page of [part_000]. *)
Module LegacyTz.
Definition baseUrl : jsstring :=
  lit "https://download.openplanetdata.com/tz/planet/geoparquet/planet-latest.tz.parquet".
Definition Page (net : Tz.Net) : Tz.State :=
  snd (Tz.effect baseUrl (lit "geoparquet") net Tz.start).
End LegacyTz.

(* ================================================================== *)
(** ** [HashRow]: the handlers and conditions of a table row            *)
(* ================================================================== *)

Module HashRow.

(** The callbacks handed to [setTimeout]. *)
Inductive callback : Type :=
  | ResetCopied          (* [() => setCopied(false)] *)
  | ResetRcloneCopied.   (* [() => setRcloneCopied(false)] *)

(** The states of a row, the clipboard, and the timers that are pending,
    each with its delay in milliseconds. *)
Record State : Type := mkState {
  copied : bool;
  rcloneOpen : bool;
  rcloneCopied : bool;
  clipboard : option jsstring;
  timers : list (Z * callback)
}.

(** [useState(false)] three times; nothing written, nothing pending. *)
Definition start : State :=
  {| copied := false; rcloneOpen := false; rcloneCopied := false;
     clipboard := None; timers := [] |}.

(** The browser's answer to [navigator.clipboard.writeText(text)]. *)
Definition Permission : Type := jsstring -> Settled unit.

(** [file.sha256 && file.sha256 !== "N/A"], the condition under which the
    copy button is rendered. *)
Definition shows_copy_button (file : FileItem) : bool :=
  match sha256 file with
  | Some (c :: r) => negb (str_eqb (c :: r) (lit "N/A"))
  | _ => false
  end.

(** [if (!file.sha256 || file.sha256 === "N/A") return;
     await navigator.clipboard.writeText(file.sha256);
     setCopied(true); setTimeout(() => setCopied(false), 1500);] *)
Definition copyHash (writeText : Permission) (file : FileItem) (s : State)
  : Settled unit * State :=
  match sha256 file with
  | None | Some [] => (Fulfilled tt, s)
  | Some h =>
      if str_eqb h (lit "N/A") then (Fulfilled tt, s)
      else match writeText h with
           | Rejected e => (Rejected e, s)
           | Fulfilled _ =>
               (Fulfilled tt,
                {| copied := true;
                   rcloneOpen := rcloneOpen s;
                   rcloneCopied := rcloneCopied s;
                   clipboard := Some h;
                   timers := timers s ++ [(1500%Z, ResetCopied)] |})
           end
  end.

(** [path = file.url.replace(base, empty)], with the download host for
    [base] and the empty string for [empty]. *)
Definition path (file : FileItem) : jsstring :=
  replace (lit "https://download.openplanetdata.com/") [] (url file).

Definition backslash : code_unit := 92%N.
Definition newline : code_unit := 10%N.

(** The array literal of [rcloneCmd]; the pages differ in the number of
    streams and in the chunk size. *)
Definition rclone_lines (streams chunk : string) (file : FileItem)
  : list jsstring :=
  [ lit "rclone copy " ++ [backslash];
    lit "    --http-url https://download.openplanetdata.com " ++ [backslash];
    lit "    :http:" ++ path file ++ lit " . " ++ [backslash];
    lit "    --multi-thread-cutoff 0 " ++ [backslash];
    lit "    --multi-thread-streams " ++ lit streams ++ lit " " ++ [backslash];
    lit "    --multi-thread-chunk-size " ++ lit chunk ++ lit " " ++ [backslash];
    lit "    --transfers 1 --progress" ].

(** [[...].join("\n")] *)
Definition rcloneCmd (streams chunk : string) (file : FileItem) : jsstring :=
  join [newline] (rclone_lines streams chunk file).

(** [await navigator.clipboard.writeText(rcloneCmd);
     setRcloneCopied(true); setTimeout(() => setRcloneCopied(false), 1500);] *)
Definition copyRclone (writeText : Permission) (cmd : jsstring) (s : State)
  : Settled unit * State :=
  match writeText cmd with
  | Rejected e => (Rejected e, s)
  | Fulfilled _ =>
      (Fulfilled tt,
       {| copied := copied s;
          rcloneOpen := rcloneOpen s;
          rcloneCopied := true;
          clipboard := Some cmd;
          timers := timers s ++ [(1500%Z, ResetRcloneCopied)] |})
  end.

End HashRow.

(** The command of the first page of [part_000] and of the second. *)
Module PlanetRow.
Definition rcloneCmd : FileItem -> jsstring := HashRow.rcloneCmd "768" "120M".
End PlanetRow.

Module LegacyRow.
Definition rcloneCmd : FileItem -> jsstring := HashRow.rcloneCmd "64" "512M".
End LegacyRow.

(* ================================================================== *)
(** ** [Number.prototype.toFixed] with one fraction digit               *)
(* ================================================================== *)

(** The decimal digits of a non-negative integer. *)
Definition decimal (n : Z) : jsstring :=
  lit (NilZero.string_of_uint (N.to_uint (Z.to_N n))).

(** [x.toFixed(1)].  A value that is not finite, and a magnitude from 10^21
    on, print as Number-to-string prints them.  Below that the integer [n]
    nearest to ten times the magnitude is taken, the larger one on a tie, and
    printed with a point before its last digit, after the sign. *)
Definition toFixed (numberToString : number -> jsstring) (x : number)
  : jsstring :=
  match x with
  | Finite q =>
      let s := if Qle_bool 0 q then [] else lit "-" in
      let a := Qabs q in
      if Qle_bool (inject_Z (10 ^ 21)) a then s ++ numberToString (Finite a)
      else
        let n := Qfloor (a * inject_Z 10 + (1 # 2)) in
        s ++ decimal (n / 10) ++ lit "." ++ decimal (n mod 10)
  | _ => numberToString x
  end.

(** An array manifest with two files of one format around a third file. *)
Module PlanetSample.

Definition three_files : Manifest :=
  FlatArray [Sample.planet_element "pbf" "b.osm.pbf" (Num (of_Z 2));
             Sample.planet_element "gol" "planet.gol" (Num (of_Z 3));
             Sample.planet_element "pbf" "a.osm.pbf" (Num (of_Z 1))].

Definition manifest_answer : Response :=
  {| status := 200; text := Fulfilled []; json := Fulfilled three_files |}.

Definition net : Network := Sample.serving Planet.metadata_url three_files.

Definition page : World := Planet.Page Sample.ascii_upper lex_compare net.

End PlanetSample.

(** Sample answers of the time-zone section. *)
Module TzSample.

Definition meta : Meta.t :=
  {| Meta.created := of_Z 1700000000; Meta.size := Num (of_Z 123456789) |}.

Definition with_meta : Settled Tz.Answer :=
  Fulfilled {| Tz.answer_status := 200; Tz.answer_text := Fulfilled [];
               Tz.answer_json := Fulfilled meta |}.

Definition with_text (body : jsstring) : Settled Tz.Answer :=
  Fulfilled {| Tz.answer_status := 200; Tz.answer_text := Fulfilled body;
               Tz.answer_json := Rejected SyntaxError |}.

(** Everything is served. *)
Definition serving : Tz.Net :=
  fun a =>
    if str_eqb a (PlanetTz.baseUrl ++ lit ".metadata") then with_meta
    else with_text (lit "0123abcd  planet-latest.tz.parquet" ++ [10%N]).

(** The metadata is served, the checksum is not. *)
Definition no_checksum : Tz.Net :=
  fun a =>
    if str_eqb a (PlanetTz.baseUrl ++ lit ".metadata") then with_meta
    else Rejected NetworkFailure.

Definition offline : Tz.Net := fun _ => Rejected NetworkFailure.

(** The record the first page builds when everything is served. *)
Definition tz_record : FileItem :=
  {| created := of_Z 1700000000;
     deprecated := None;
     deprecation_reason := None;
     filename := lit "planet-latest.tz.parquet";
     kind := lit "PARQUET";
     size := Num (of_Z 123456789);
     sha256 := Some (lit "0123abcd");
     url := PlanetTz.baseUrl;
     version := None |}.

(** The clipboard accepts, or refuses. *)
Definition granted : HashRow.Permission := fun _ => Fulfilled tt.
Definition denied : HashRow.Permission := fun _ => Rejected TypeError.

End TzSample.

(* ================================================================== *)
(** ** Facts about the built-ins                                        *)
(* ================================================================== *)

Lemma split_not_nil (sep : code_unit) (s : jsstring) : split sep s <> [].
Proof.
  destruct s as [|c r]; simpl; [discriminate|].
  destruct (N.eqb c sep); [discriminate|].
  destruct (split sep r); discriminate.
Qed.

Lemma split_cons_sep (sep : code_unit) (r : jsstring) :
  split sep (sep :: r) = [] :: split sep r.
Proof. simpl. now rewrite N.eqb_refl. Qed.

Lemma split_cons_other (sep c : code_unit) (r : jsstring) :
  c <> sep ->
  split sep (c :: r) = (c :: hd [] (split sep r)) :: tl (split sep r).
Proof.
  intros Hc. simpl.
  destruct (N.eqb_spec c sep) as [E|_]; [contradiction|].
  destruct (split sep r) eqn:Es; [now apply split_not_nil in Es|reflexivity].
Qed.

(** The first piece of a split holds no separator. *)
Lemma split_hd_no_sep (sep : code_unit) (s : jsstring) :
  ~ In sep (hd [] (split sep s)).
Proof.
  induction s as [|c r IH]; simpl; [tauto|].
  destruct (N.eqb_spec c sep) as [E|N]; simpl; [tauto|].
  destruct (split sep r) as [|p ps] eqn:Es; simpl in *.
  - intros [H|[]]. now apply N.
  - intros [H|H]; [now apply N | now apply IH].
Qed.

(** A prefix free of separators stays in the first piece. *)
Lemma split_hd_app (sep : code_unit) (d rest : jsstring) :
  ~ In sep d ->
  hd [] (split sep (d ++ rest)) = d ++ hd [] (split sep rest).
Proof.
  induction d as [|c d IH]; intros Hd; [reflexivity|].
  rewrite <- app_comm_cons, split_cons_other.
  - simpl. f_equal. apply IH. intros H. apply Hd. now right.
  - intros ->. apply Hd. now left.
Qed.

Lemma trimStart_incl (s : jsstring) (x : code_unit) :
  In x (trimStart s) -> In x s.
Proof.
  induction s as [|c r IH]; simpl; [tauto|].
  destruct (is_white_space c); [intros H; right; now apply IH | tauto].
Qed.

Lemma trim_incl (s : jsstring) (x : code_unit) : In x (trim s) -> In x s.
Proof.
  unfold trim, trimEnd. intros H.
  apply In_rev in H. apply trimStart_incl in H.
  apply In_rev in H. now apply trimStart_incl in H.
Qed.

Lemma trimStart_white (ws s : jsstring) :
  forallb is_white_space ws = true -> trimStart (ws ++ s) = trimStart s.
Proof.
  induction ws as [|c ws IH]; simpl; [reflexivity|].
  intros H. apply andb_prop in H as [Hc Hws]. rewrite Hc. now apply IH.
Qed.

Lemma trimStart_black (s : jsstring) :
  forallb (fun c => negb (is_white_space c)) s = true -> trimStart s = s.
Proof.
  destruct s as [|c r]; simpl; [reflexivity|].
  intros H. apply andb_prop in H as [Hc _].
  now destruct (is_white_space c).
Qed.

(** A string without white space, followed by white space, trims to itself. *)
Lemma trim_black_white (d ws : jsstring) :
  forallb (fun c => negb (is_white_space c)) d = true ->
  forallb is_white_space ws = true ->
  trim (d ++ ws) = d.
Proof.
  intros Hd Hws. unfold trim, trimEnd.
  destruct d as [|c d'].
  - simpl. rewrite <- (app_nil_r ws) at 1. rewrite trimStart_white by assumption.
    simpl. reflexivity.
  - assert (E : trimStart ((c :: d') ++ ws) = (c :: d') ++ ws).
    { simpl in *. apply andb_prop in Hd as [Hc _].
      now destruct (is_white_space c). }
    rewrite E, rev_app_distr, trimStart_white.
    + rewrite trimStart_black; [apply rev_involutive|].
      rewrite forallb_forall in *. intros x Hx. apply Hd. now apply In_rev.
    + rewrite forallb_forall in *. intros x Hx. apply Hws. now apply In_rev.
Qed.

Lemma lower_hex_black (c : code_unit) :
  is_lower_hex c = true -> negb (is_white_space c) = true.
Proof.
  unfold is_lower_hex. intros H.
  assert (R : (48 <= c <= 102)%N).
  { apply orb_prop in H as [H|H]; apply andb_prop in H as [H1 H2];
    apply N.leb_le in H1, H2; lia. }
  unfold is_white_space.
  replace (c <=? 13)%N with false by (symmetry; apply N.leb_gt; lia).
  replace (8192 <=? c)%N with false by (symmetry; apply N.leb_gt; lia).
  repeat match goal with
         | |- context [N.eqb c ?b] =>
             replace (N.eqb c b) with false by (symmetry; apply N.eqb_neq; lia)
         end.
  now rewrite andb_false_r.
Qed.

Lemma hex_digest_black (d : jsstring) :
  is_hex_digest d = true ->
  forallb (fun c => negb (is_white_space c)) d = true.
Proof.
  intros H. assert (Hall : forallb is_lower_hex d = true).
  { destruct d; [discriminate | exact H]. }
  rewrite forallb_forall in *. intros x Hx. now apply lower_hex_black, Hall.
Qed.

Lemma hex_digest_no_space (d : jsstring) :
  is_hex_digest d = true -> ~ In space d.
Proof.
  intros H Hin. apply hex_digest_black in H.
  rewrite forallb_forall in H. specialize (H _ Hin). discriminate.
Qed.

Lemma promise_all_fulfilled (A B : Type) (f : A -> B) (l : list A) :
  promise_all (map (fun x => Fulfilled (f x)) l) = Fulfilled (map f l).
Proof.
  induction l as [|x l IH]; simpl; [reflexivity|]. now rewrite IH.
Qed.

(* ================================================================== *)
(** ** Enrichment in closed form                                        *)
(* ================================================================== *)

Lemma first_token_run (body : jsstring) (net : Network) (w : World) :
  first_token body net w = (Fulfilled (trim (hd [] (split space body))), w).
Proof.
  unfold first_token, index.
  destruct (split space body) as [|p ps] eqn:E.
  - now apply split_not_nil in E.
  - reflexivity.
Qed.

Lemma enrich_run (item : FileItem) (net : Network) (w : World) :
  enrich item net w = (Fulfilled (enriched net item), requested w [checksum_url item]).
Proof.
  unfold enrich, try_catch, bind, fetch, await, enriched, digest_of, requested.
  fold (checksum_url item).
  destruct (net (checksum_url item)) as [r|e]; simpl; [|reflexivity].
  destruct (text r) as [body|e]; simpl; [|reflexivity].
  now rewrite first_token_run.
Qed.

Lemma map_async_enrich (items : list FileItem) (net : Network) (w : World) :
  map_async enrich items net w =
  (map (fun i => Fulfilled (enriched net i)) items,
   requested w (map checksum_url items)).
Proof.
  revert w. induction items as [|x r IH]; intros w; simpl.
  - unfold requested. rewrite app_nil_r. now destruct w.
  - rewrite enrich_run, IH. unfold requested; simpl.
    now rewrite <- app_assoc.
Qed.

Lemma withHash_run (items : list FileItem) (net : Network) (w : World) :
  withHash items net w =
  (Fulfilled (map (enriched net) items), requested w (map checksum_url items)).
Proof.
  unfold withHash, await_all.
  now rewrite map_async_enrich, promise_all_fulfilled.
Qed.

Lemma split_hd_incl (sep : code_unit) (s : jsstring) (x : code_unit) :
  In x (hd [] (split sep s)) -> In x s.
Proof.
  induction s as [|c r IH]; simpl; [tauto|].
  destruct (N.eqb c sep); simpl; [tauto|].
  destruct (split sep r) as [|p ps]; simpl in *; intros [H|H]; auto; tauto.
Qed.

Lemma NA_no_space : ~ In space (lit "N/A").
Proof. simpl. unfold space. intros [H|[H|[H|[]]]]; discriminate. Qed.

Lemma digest_of_no_space (outcome : Settled Response) :
  ~ In space (digest_of outcome).
Proof.
  unfold digest_of. destruct outcome as [r|e]; [|apply NA_no_space].
  destruct (text r) as [body|e]; [|apply NA_no_space].
  intros H. apply trim_incl in H. now apply split_hd_no_sep in H.
Qed.

Lemma digest_of_rejected (outcome : Settled Response) :
  rejected outcome -> digest_of outcome = lit "N/A".
Proof.
  unfold rejected, digest_of. destruct outcome as [r|e]; [|reflexivity].
  destruct (text r); [intros []|reflexivity].
Qed.

(** The digest read from a body that starts with a hexadecimal digest. *)
Lemma digest_line (d rest : jsstring) :
  is_hex_digest d = true ->
  rest = [] \/ (exists r, rest = space :: r) \/ forallb is_white_space rest = true ->
  trim (hd [] (split space (d ++ rest))) = d.
Proof.
  intros Hd Hrest.
  rewrite split_hd_app by now apply hex_digest_no_space.
  apply trim_black_white; [now apply hex_digest_black|].
  destruct Hrest as [->|[[r ->]|Hws]].
  - reflexivity.
  - now rewrite split_cons_sep.
  - rewrite forallb_forall in *. intros x Hx. apply Hws.
    now apply split_hd_incl in Hx.
Qed.

(* ================================================================== *)
(** ** The checksum enricher                                            *)
(* ================================================================== *)

(** C1, as stated, fails: a checksum companion answered with a non-200
    status is not a failure for the code.  The body of the 404 response is
    read like any other and its first piece, [Not], becomes the digest.
    Likewise a 200 response whose body is an HTML page gives its first
    piece. *)
Lemma non_200_checksum_is_not_NA :
  (exists r, Sample.all_not_found (checksum_url Sample.a_pbf) = Fulfilled r
             /\ status r = 404%Z) /\
  fst (withHash [Sample.a_pbf] Sample.all_not_found initial)
  = Fulfilled [with_sha256 Sample.a_pbf (lit "Not")] /\
  lit "Not" <> lit "N/A" /\
  fst (withHash [Sample.a_pbf] (Sample.all_ok (lit "<html> oops </html>")) initial)
  = Fulfilled [with_sha256 Sample.a_pbf (lit "<html>")] /\
  is_hex_digest (lit "<html>") = false /\
  lit "<html>" <> lit "N/A".
Proof.
  split; [|repeat split].
  - eexists. split; reflexivity.
  - discriminate.
  - discriminate.
Qed.

(** C1, amended.  The enrichment never rejects and returns one record per
    input, in input order, each being its input with a [sha256].  A record
    whose fetch rejected (the request, or the reading of the body) gets
    ["N/A"].  A record's result depends on the outcome of its own fetch only:
    under any other network that answers its companion address alike, its
    result is the same.  An answer whose body can be read is no failure,
    whatever its status and whatever the body: the record gets the trimmed
    text before the first space of that body. *)
Theorem withHash_isolates_rejections
    (net : Network) (items : list FileItem) (w : World) :
  exists out,
    fst (withHash items net w) = Fulfilled out /\
    length out = length items /\
    (forall i item,
        nth_error items i = Some item ->
        exists h,
          nth_error out i = Some (with_sha256 item h) /\
          (rejected (net (checksum_url item)) -> h = lit "N/A")) /\
    (forall net' w' i item,
        nth_error items i = Some item ->
        net' (checksum_url item) = net (checksum_url item) ->
        exists out',
          fst (withHash items net' w') = Fulfilled out' /\
          nth_error out' i = nth_error out i) /\
    (forall i item resp body,
        nth_error items i = Some item ->
        net (checksum_url item) = Fulfilled resp ->
        text resp = Fulfilled body ->
        nth_error out i
        = Some (with_sha256 item (trim (hd [] (split space body))))).
Proof.
  exists (map (enriched net) items).
  rewrite withHash_run. simpl. split; [|split; [|split; [|split]]].
  - reflexivity.
  - apply length_map.
  - intros i item Hi. exists (digest_of (net (checksum_url item))). split.
    + rewrite nth_error_map, Hi. reflexivity.
    + apply digest_of_rejected.
  - intros net' w' i item Hi Hsame.
    exists (map (enriched net') items). rewrite withHash_run. split; [reflexivity|].
    rewrite !nth_error_map, Hi. simpl. unfold enriched. now rewrite Hsame.
  - intros i item resp body Hi Hnet Htext.
    rewrite nth_error_map, Hi. simpl. unfold enriched, digest_of.
    now rewrite Hnet, Htext.
Qed.

(** The amended C1 on two records, the first of which fails. *)
Lemma withHash_isolates_rejections_witness :
  exists out,
    fst (withHash [Sample.a_pbf; Sample.a_gol] Sample.first_fails initial)
    = Fulfilled out /\
    nth_error out 0 = Some (with_sha256 Sample.a_pbf (lit "N/A")).
Proof.
  destruct (withHash_isolates_rejections
              Sample.first_fails [Sample.a_pbf; Sample.a_gol] initial)
    as (out & Hrun & _ & Hrec & _).
  exists out. split; [exact Hrun|].
  destruct (Hrec 0%nat Sample.a_pbf eq_refl) as (h & Hout & Hh).
  rewrite Hout, (Hh I). reflexivity.
Defined.

(** The same run, evaluated: the sibling record keeps its digest. *)
Example first_fails_run :
  fst (withHash [Sample.a_pbf; Sample.a_gol] Sample.first_fails initial)
  = Fulfilled [with_sha256 Sample.a_pbf (lit "N/A");
               with_sha256 Sample.a_gol (lit "cafe0123")].
Proof. vm_compute. reflexivity. Qed.

(** C2, as stated, fails: an empty body gives the empty string, and the
    body of an error page gives a piece of its text. *)
Lemma empty_body_gives_empty_sha256 :
  fst (withHash [Sample.a_pbf] (Sample.all_ok []) initial)
  = Fulfilled [with_sha256 Sample.a_pbf []] /\
  sha256 (with_sha256 Sample.a_pbf []) = Some [] /\
  is_hex_digest [] = false /\
  [] <> lit "N/A" /\
  fst (withHash [Sample.a_pbf] Sample.all_not_found initial)
  = Fulfilled [with_sha256 Sample.a_pbf (lit "Not")] /\
  is_hex_digest (lit "Not") = false.
Proof.
  repeat split; try (vm_compute; reflexivity). discriminate.
Qed.

(** C2, amended.  After enrichment every record carries a [sha256] string
    (the field is never absent): either ["N/A"], or the trimmed text that
    precedes the first space of the companion's body.  That string holds no
    space; it may be empty, and it need not be hexadecimal. *)
Theorem sha256_after_enrichment
    (net : Network) (items : list FileItem) (w : World) :
  exists out,
    fst (withHash items net w) = Fulfilled out /\
    Forall2
      (fun item r =>
         exists h,
           r = with_sha256 item h /\ sha256 r = Some h /\ ~ In space h /\
           (h = lit "N/A" \/
            exists resp body,
              net (checksum_url item) = Fulfilled resp /\
              text resp = Fulfilled body /\
              h = trim (hd [] (split space body))))
      items out.
Proof.
  exists (map (enriched net) items). rewrite withHash_run. split; [reflexivity|].
  induction items as [|x r IH]; simpl; constructor; [|exact IH].
  exists (digest_of (net (checksum_url x))). repeat split.
  - apply digest_of_no_space.
  - unfold digest_of. destruct (net (checksum_url x)) as [resp|e] eqn:En; [|now left].
    destruct (text resp) as [body|e] eqn:Et; [|now left].
    right. exists resp, body. auto.
Qed.

(** C4, as stated, fails: the body is cut at the first space only.  Leading
    space gives the empty string, and a tab does not separate. *)
Lemma only_a_space_separates :
  is_hex_digest (lit "deadbeef") = true /\
  fst (enrich Sample.a_pbf (Sample.all_ok (lit " deadbeef  a.pbf")) initial)
  = Fulfilled (with_sha256 Sample.a_pbf []) /\
  fst (enrich Sample.a_pbf
         (Sample.all_ok (lit "deadbeef" ++ [9%N] ++ lit "a.pbf")) initial)
  = Fulfilled (with_sha256 Sample.a_pbf (lit "deadbeef" ++ [9%N] ++ lit "a.pbf")) /\
  lit "deadbeef" ++ [9%N] ++ lit "a.pbf" <> lit "deadbeef" /\
  [] <> lit "deadbeef".
Proof.
  repeat split; try (vm_compute; reflexivity); discriminate.
Qed.

(** C4, amended.  The enrichment stores the text that precedes the first
    space character (U+0020) of the body, trimmed of surrounding white
    space.  For a body that is a hexadecimal digest followed by nothing, by a
    space and anything, or by white space only, the stored value is the
    digest. *)
Theorem enrich_reads_text_before_first_space
    (net : Network) (item : FileItem) (w : World)
    (resp : Response) (body : jsstring) :
  net (checksum_url item) = Fulfilled resp ->
  text resp = Fulfilled body ->
  fst (enrich item net w)
  = Fulfilled (with_sha256 item (trim (hd [] (split space body)))) /\
  forall d rest,
    body = d ++ rest ->
    is_hex_digest d = true ->
    rest = [] \/ (exists r, rest = space :: r)
    \/ forallb is_white_space rest = true ->
    fst (enrich item net w) = Fulfilled (with_sha256 item d).
Proof.
  intros Hnet Htext. rewrite enrich_run. simpl.
  unfold enriched, digest_of. rewrite Hnet, Htext. split; [reflexivity|].
  intros d rest -> Hd Hrest. now rewrite digest_line.
Qed.

(** The amended C4 on the body of the specification's scenario. *)
Lemma enrich_reads_text_before_first_space_witness :
  fst (enrich Sample.a_pbf
         (Sample.all_ok (lit "deadbeef" ++ lit "  a.pbf" ++ [10%N])) initial)
  = Fulfilled (with_sha256 Sample.a_pbf (lit "deadbeef")).
Proof.
  refine (proj2 (enrich_reads_text_before_first_space
                   (Sample.all_ok (lit "deadbeef" ++ lit "  a.pbf" ++ [10%N]))
                   Sample.a_pbf initial eq_refl eq_refl)
                (lit "deadbeef") (lit "  a.pbf" ++ [10%N]) eq_refl eq_refl _).
  right. left. eexists. reflexivity.
Defined.

(* ================================================================== *)
(** ** Size normalization                                               *)
(* ================================================================== *)

Lemma is_nonneg_integer_of_Z (z : Z) :
  (0 <= z)%Z -> is_nonneg_integer (of_Z z) = true.
Proof.
  intros Hz. unfold is_nonneg_integer, of_Z. simpl.
  rewrite Z.mod_1_r. rewrite andb_true_r.
  apply Qle_bool_iff. unfold Qle. simpl. lia.
Qed.

Lemma round_to_double_small (n : Z) :
  (n < 2 ^ 53)%Z -> round_to_double n = of_Z n.
Proof.
  intros H. unfold round_to_double.
  destruct (Z.ltb_spec n (2 ^ 53)); [reflexivity | lia].
Qed.

Lemma round_to_double_integer (n : Z) :
  (0 <= n < 2 ^ 1023)%Z ->
  exists z, (0 <= z)%Z /\ round_to_double n = of_Z z.
Proof.
  intros [H0 Hn]. unfold round_to_double.
  destruct (Z.ltb_spec n (2 ^ 53)) as [Hs|Hb]; [now exists n|].
  assert (Hpos : (0 < n)%Z) by (assert (0 < 2 ^ 53)%Z by reflexivity; lia).
  assert (Hlo : (53 <= Z.log2 n)%Z) by (apply Z.log2_le_pow2; assumption).
  assert (Hhi : (Z.log2 n < 1023)%Z) by (apply Z.log2_lt_pow2; assumption).
  set (e := (Z.log2 n - 52)%Z).
  assert (He : (1 <= e <= 970)%Z) by (unfold e; lia).
  rewrite !Z.shiftl_mul_pow2, Z.shiftr_div_pow2 by lia.
  set (q := (n / 2 ^ e)%Z).
  assert (Hpe : (0 < 2 ^ e)%Z) by (apply Z.pow_pos_nonneg; lia).
  assert (Hq : (0 <= q < 2 ^ 53)%Z).
  { unfold q. split; [apply Z.div_pos; lia|].
    apply Z.div_lt_upper_bound; [assumption|].
    rewrite <- Z.pow_add_r by lia.
    replace (e + 53)%Z with (Z.succ (Z.log2 n)) by (unfold e; lia).
    apply Z.log2_spec. assumption. }
  match goal with
  | |- context [Z.leb _ (?x * _)] => set (q' := x)
  end.
  assert (Hq' : (0 <= q' <= 2 ^ 53)%Z).
  { unfold q'.
    repeat match goal with |- context [if ?b then _ else _] => destruct b end; lia. }
  assert (Hv : (q' * 2 ^ e < 2 ^ 1024)%Z).
  { apply Z.le_lt_trans with (2 ^ 53 * 2 ^ e)%Z.
    - apply Z.mul_le_mono_nonneg_r; lia.
    - rewrite <- Z.pow_add_r by lia. apply Z.pow_lt_mono_r; lia. }
  destruct (Z.leb_spec (2 ^ 1024) (q' * 2 ^ e)) as [Hbig|_]; [lia|].
  exists (q' * 2 ^ e)%Z. split; [|reflexivity].
  apply Z.mul_nonneg_nonneg; lia.
Qed.

Lemma digit_not_white (c : code_unit) :
  is_digit c = true -> is_white_space c = false.
Proof.
  unfold is_digit. intros H.
  assert (R : (48 <= c <= 57)%N).
  { apply andb_prop in H as [H1 H2]. apply N.leb_le in H1, H2. lia. }
  unfold is_white_space.
  replace (c <=? 13)%N with false by (symmetry; apply N.leb_gt; lia).
  replace (8192 <=? c)%N with false by (symmetry; apply N.leb_gt; lia).
  repeat match goal with
         | |- context [N.eqb c ?b] =>
             replace (N.eqb c b) with false by (symmetry; apply N.eqb_neq; lia)
         end.
  now rewrite andb_false_r.
Qed.

Lemma digits_prefix_all (s : jsstring) :
  forallb is_digit s = true ->
  digits_prefix s = map (fun c => Z.of_N c - 48)%Z s.
Proof.
  induction s as [|c r IH]; simpl; [reflexivity|].
  intros H. apply andb_prop in H as [Hc Hr].
  unfold digit_value. unfold is_digit in Hc. rewrite Hc. now rewrite IH.
Qed.

Lemma parseInt10_digits (s : jsstring) :
  s <> [] -> forallb is_digit s = true ->
  parseInt10 s = round_to_double (decimal_value s).
Proof.
  intros Hne Hall. destruct s as [|c r]; [contradiction|].
  assert (Hc : is_digit c = true) by (simpl in Hall; now apply andb_prop in Hall).
  assert (R : (48 <= c <= 57)%N).
  { unfold is_digit in Hc. apply andb_prop in Hc as [H1 H2].
    apply N.leb_le in H1, H2. lia. }
  unfold parseInt10, decimal_value.
  simpl trimStart. rewrite (digit_not_white c Hc).
  replace (c =? 45)%N with false by (symmetry; apply N.eqb_neq; lia).
  replace (c =? 43)%N with false by (symmetry; apply N.eqb_neq; lia).
  rewrite (digits_prefix_all (c :: r) Hall). reflexivity.
Qed.

Lemma digits_value_nonneg (s : jsstring) :
  forallb is_digit s = true -> (0 <= decimal_value s)%Z.
Proof.
  unfold decimal_value, digits_value.
  assert (G : forall acc, (0 <= acc)%Z ->
              forallb is_digit s = true ->
              (0 <= fold_left (fun a d => 10 * a + d) (map (fun c => Z.of_N c - 48) s) acc)%Z).
  { induction s as [|c r IH]; intros acc Hacc H;
      cbn [map fold_left forallb] in *; [assumption|].
    apply andb_prop in H as [Hc Hr]. apply IH; [|assumption].
    unfold is_digit in Hc. apply andb_prop in Hc as [H1 H2].
    apply N.leb_le in H1, H2. lia. }
  apply G. lia.
Qed.


(** C3, as stated, fails: [page.tsx] copies the entry's fields as they
    are, so the size of the specification's scenario stays the string
    [100]; only the array page converts. *)
Lemma page_tsx_keeps_string_size :
  exists r,
    fst (PageTsx.items_of Sample.scenario Sample.offline initial) = Fulfilled [r] /\
    size r = Str (lit "100") /\
    size_is_nonneg_integer (size r) = false.
Proof.
  eexists. repeat split.
Qed.

(** C3, amended.  On the array manifest a size given as a non-empty string
    of decimal digits becomes the Number nearest to the integer it denotes,
    which is that integer when it is below 2^53 and a non-negative integer
    when it is below 2^1023; a size given as a Number is kept as it is.  The
    object-manifest pages copy the size as it is, string or Number. *)
Theorem size_after_normalization
    (toUpperCase : jsstring -> jsstring) (item : PlanetMetadata.t)
    (kind : jsstring) (e : Entry.t) :
  (forall s,
      PlanetMetadata.size item = Str s ->
      s <> [] -> forallb is_digit s = true ->
      (decimal_value s < 2 ^ 1023)%Z ->
      exists z,
        (0 <= z)%Z /\
        size (Planet.item_of toUpperCase item) = Num (of_Z z) /\
        size_is_nonneg_integer (size (Planet.item_of toUpperCase item)) = true /\
        of_Z z = round_to_double (decimal_value s) /\
        ((decimal_value s < 2 ^ 53)%Z -> z = decimal_value s)) /\
  (forall n,
      PlanetMetadata.size item = Num n ->
      size (Planet.item_of toUpperCase item) = Num n) /\
  size (PageTsx.item_of kind e) = Entry.size e /\
  size (Legacy.item_of kind e) = Entry.size e.
Proof.
  repeat split.
  - intros s Hs Hne Hall Hlt.
    assert (H0 : (0 <= decimal_value s)%Z) by now apply digits_value_nonneg.
    assert (Hsize : size (Planet.item_of toUpperCase item)
                    = Num (round_to_double (decimal_value s))).
    { unfold Planet.item_of. simpl. rewrite Hs. now rewrite parseInt10_digits. }
    destruct (Z.ltb_spec (decimal_value s) (2 ^ 53)) as [Hs53|Hb53].
    + exists (decimal_value s). rewrite Hsize, round_to_double_small by assumption.
      repeat split; auto. simpl. now apply is_nonneg_integer_of_Z.
    + destruct (round_to_double_integer (conj H0 Hlt)) as (z & Hz & Hr).
      exists z. rewrite Hsize, Hr. repeat split; auto.
      * simpl. now apply is_nonneg_integer_of_Z.
      * lia.
  - intros n Hn. unfold Planet.item_of. simpl. now rewrite Hn.
Qed.

(** The amended C3 on a planet file of 80 GiB whose size is a string. *)
Lemma size_after_normalization_witness :
  size (Planet.item_of Sample.ascii_upper
          (Sample.planet_element "pbf" "planet.osm.pbf" (Str (lit "85899345920"))))
  = Num (of_Z 85899345920).
Proof.
  destruct (proj1 (size_after_normalization Sample.ascii_upper
                     (Sample.planet_element "pbf" "planet.osm.pbf"
                        (Str (lit "85899345920")))
                     (lit "pbf") (Sample.entry "https://x/a.pbf" (Num (of_Z 100))))
                  (lit "85899345920") eq_refl)
    as (z & _ & Hsize & _ & _ & Hz).
  - discriminate.
  - reflexivity.
  - reflexivity.
  - rewrite Hsize, Hz; reflexivity.
Defined.

(* ================================================================== *)
(** ** Sorting                                                          *)
(* ================================================================== *)

Section SortFacts.
Variable A : Type.
Variable cmp : A -> A -> Z.

Lemma insert_perm (x : A) (l : list A) : Permutation (insert cmp x l) (x :: l).
Proof.
  induction l as [|y r IH]; simpl; [apply Permutation_refl|].
  destruct (cmp x y <=? 0)%Z; [apply Permutation_refl|].
  apply perm_trans with (y :: x :: r); [now apply perm_skip | apply perm_swap].
Qed.

Lemma sort_perm (l : list A) : Permutation (sort cmp l) l.
Proof.
  induction l as [|x r IH]; simpl; [apply perm_nil|].
  apply perm_trans with (x :: sort cmp r); [apply insert_perm | now apply perm_skip].
Qed.

Lemma sort_length (l : list A) : length (sort cmp l) = length l.
Proof. apply Permutation_length, sort_perm. Qed.

(** A sequence whose neighbours are in order is left as it is. *)
Lemma sort_sorted_id (l : list A) : Sorted (ascending cmp) l -> sort cmp l = l.
Proof.
  induction 1 as [|x l Hl IH Hx]; simpl; [reflexivity|].
  rewrite IH. destruct Hx as [|y r Hxy]; simpl; [reflexivity|].
  unfold ascending in Hxy. apply Z.leb_le in Hxy. now rewrite Hxy.
Qed.

Hypothesis Hcmp : consistent cmp.

Lemma cmp_flip (a b : A) : (cmp a b <= 0)%Z \/ (cmp b a <= 0)%Z.
Proof.
  destruct (Z.leb_spec (cmp a b) 0) as [H|H]; [now left|].
  right. apply (cmp_sign Hcmp b a) in H. lia.
Qed.

Lemma insert_sorted (x : A) (l : list A) :
  StronglySorted (ascending cmp) l -> StronglySorted (ascending cmp) (insert cmp x l).
Proof.
  induction 1 as [|y r Hr IH Hy]; simpl.
  - constructor; constructor.
  - destruct (Z.leb_spec (cmp x y) 0) as [Hxy|Hyx].
    + constructor; [now constructor|].
      constructor; [exact Hxy|].
      rewrite Forall_forall in *. intros z Hz. unfold ascending in *.
      apply (cmp_trans Hcmp) with y; [exact Hxy | now apply Hy].
    + constructor; [exact IH|].
      rewrite Forall_forall in *. intros z Hz.
      apply (Permutation_in _ (insert_perm x r)) in Hz. destruct Hz as [<-|Hz].
      * unfold ascending. destruct (cmp_flip x y) as [H|H]; [lia | exact H].
      * now apply Hy.
Qed.

Lemma sort_sorted (l : list A) : StronglySorted (ascending cmp) (sort cmp l).
Proof.
  induction l as [|x r IH]; simpl; [constructor | now apply insert_sorted].
Qed.

Lemma sort_idempotent (l : list A) : sort cmp (sort cmp l) = sort cmp l.
Proof. apply sort_sorted_id, StronglySorted_Sorted, sort_sorted. Qed.
End SortFacts.

Lemma consistent_on (A B : Type) (f : A -> B) (cmp : B -> B -> Z) :
  consistent cmp -> consistent (fun a b => cmp (f a) (f b)).
Proof.
  intros [R S T]. constructor; intros.
  - apply R.
  - apply S.
  - now apply T with (f b).
Qed.

Lemma lex_compare_consistent : consistent lex_compare.
Proof.
  constructor.
  - induction a as [|x a IH]; simpl; [reflexivity|]. now rewrite N.compare_refl.
  - induction a as [|x a IH]; destruct b as [|y b]; simpl; try lia.
    rewrite (N.compare_antisym x y).
    destruct (N.compare x y); simpl; try lia. apply IH.
  - induction a as [|x a IH]; destruct b as [|y b]; destruct c as [|z c];
      simpl; try lia.
    destruct (N.compare_spec x y) as [->|Hxy|Hxy]; try lia.
    + destruct (N.compare_spec y z) as [->|Hyz|Hyz]; try lia. apply IH.
    + destruct (N.compare_spec y z) as [->|Hyz|Hyz]; try lia.
      * intros _ _. destruct (N.compare_spec x z); lia.
      * intros _ _. destruct (N.compare_spec x z); lia.
Qed.

Lemma object_items_length (categories : list (jsstring * list Entry.t)) :
  length (object_items categories) = entry_count categories.
Proof.
  unfold object_items, entry_count.
  induction categories as [|[kind arr] r IH]; simpl; [reflexivity|].
  now rewrite length_app, length_map, IH.
Qed.

Lemma page_tsx_loaded (net : Network) (res : Response)
    (categories : list (jsstring * list Entry.t)) :
  net PageTsx.metadata_url = Fulfilled res ->
  json res = Fulfilled (ByCategory categories) ->
  PageTsx.Page net =
  {| requests := PageTsx.metadata_url :: map checksum_url (object_items categories);
     files := map (enriched net) (object_items categories);
     loading := false |}.
Proof.
  intros Hnet Hjson.
  unfold PageTsx.Page, PageTsx.effect, try_finally, bind, fetch, await.
  rewrite Hnet, Hjson. simpl. rewrite withHash_run. reflexivity.
Qed.

Lemma legacy_loaded (localeCompare : jsstring -> jsstring -> Z)
    (net : Network) (res : Response)
    (categories : list (jsstring * list Entry.t)) :
  net Legacy.metadata_url = Fulfilled res ->
  json res = Fulfilled (ByCategory categories) ->
  Legacy.Page localeCompare net =
  {| requests := Legacy.metadata_url :: map checksum_url (object_items categories);
     files := sort (by_extension localeCompare)
                (map (enriched net) (object_items categories));
     loading := false |}.
Proof.
  intros Hnet Hjson.
  unfold Legacy.Page, Legacy.effect, try_finally, bind, fetch, await.
  rewrite Hnet, Hjson. simpl. rewrite withHash_run. reflexivity.
Qed.

Lemma planet_loaded (toUpperCase : jsstring -> jsstring)
    (localeCompare : jsstring -> jsstring -> Z)
    (net : Network) (res : Response) (elements : list PlanetMetadata.t) :
  net Planet.metadata_url = Fulfilled res ->
  json res = Fulfilled (FlatArray elements) ->
  Planet.Page toUpperCase localeCompare net =
  {| requests := Planet.metadata_url
                 :: map checksum_url (map (Planet.item_of toUpperCase) elements);
     files := sort (by_extension localeCompare)
                (map (enriched net) (map (Planet.item_of toUpperCase) elements));
     loading := false |}.
Proof.
  intros Hnet Hjson.
  unfold Planet.Page, Planet.effect, try_finally, bind, fetch, await.
  rewrite Hnet, Hjson. simpl. rewrite withHash_run. reflexivity.
Qed.

Lemma page_tsx_failed (net : Network) :
  manifest_rejected net PageTsx.metadata_url ->
  PageTsx.Page net =
  {| requests := [PageTsx.metadata_url]; files := []; loading := false |}.
Proof.
  unfold PageTsx.Page, PageTsx.effect, try_finally, bind, fetch, await.
  intros [[e He]|(res & e & Hres & He)].
  - rewrite He. reflexivity.
  - rewrite Hres, He. reflexivity.
Qed.

Lemma legacy_failed (localeCompare : jsstring -> jsstring -> Z) (net : Network) :
  manifest_rejected net Legacy.metadata_url ->
  Legacy.Page localeCompare net =
  {| requests := [Legacy.metadata_url]; files := []; loading := false |}.
Proof.
  unfold Legacy.Page, Legacy.effect, try_finally, bind, fetch, await.
  intros [[e He]|(res & e & Hres & He)].
  - rewrite He. reflexivity.
  - rewrite Hres, He. reflexivity.
Qed.

Lemma planet_failed (toUpperCase : jsstring -> jsstring)
    (localeCompare : jsstring -> jsstring -> Z) (net : Network) :
  manifest_rejected net Planet.metadata_url ->
  Planet.Page toUpperCase localeCompare net =
  {| requests := [Planet.metadata_url]; files := []; loading := false |}.
Proof.
  unfold Planet.Page, Planet.effect, try_finally, bind, fetch, await.
  intros [[e He]|(res & e & Hres & He)].
  - rewrite He. reflexivity.
  - rewrite Hres, He. reflexivity.
Qed.

Lemma enriched_pairs (net : Network) (items : list FileItem) :
  Forall2 (fun item r => exists h, r = with_sha256 item h)
    items (map (enriched net) items).
Proof.
  induction items as [|x r IH]; simpl; constructor; [|exact IH].
  now exists (digest_of (net (checksum_url x))).
Qed.

(* ================================================================== *)
(** ** The manifest loader                                              *)
(* ================================================================== *)

(** C5.  Normalization yields one record per entry of the manifest: the sum
    over the categories for the object manifest, on [page.tsx] and on the
    second page of [part_000]; the number of elements for the array
    manifest. *)
Theorem normalized_count
    (toUpperCase : jsstring -> jsstring) (net : Network) (w : World) :
  (forall categories,
      exists items,
        fst (PageTsx.items_of (ByCategory categories) net w) = Fulfilled items /\
        length items = entry_count categories) /\
  (forall categories,
      exists items,
        fst (Legacy.items_of (ByCategory categories) net w) = Fulfilled items /\
        length items = entry_count categories) /\
  (forall elements,
      exists items,
        fst (Planet.items_of toUpperCase (FlatArray elements) net w)
        = Fulfilled items /\
        length items = length elements).
Proof.
  repeat split.
  - intros categories. exists (object_items categories).
    split; [reflexivity | apply object_items_length].
  - intros categories. exists (object_items categories).
    split; [reflexivity | apply object_items_length].
  - intros elements. exists (map (Planet.item_of toUpperCase) elements).
    split; [reflexivity | apply length_map].
Qed.

(** The count is also that of the published records. *)
Lemma published_count (toUpperCase : jsstring -> jsstring)
    (localeCompare : jsstring -> jsstring -> Z)
    (net : Network) (res : Response) (elements : list PlanetMetadata.t) :
  net Planet.metadata_url = Fulfilled res ->
  json res = Fulfilled (FlatArray elements) ->
  length (files (Planet.Page toUpperCase localeCompare net)) = length elements.
Proof.
  intros Hnet Hjson. rewrite (@planet_loaded toUpperCase localeCompare _ _ _ Hnet Hjson). simpl.
  now rewrite sort_length, !length_map.
Qed.

(** The specification's scenario, on [page.tsx]: one record, whose size is
    still the string of the manifest. *)
Example scenario_record :
  fst (PageTsx.items_of Sample.scenario Sample.offline initial)
  = Fulfilled
      [{| created := of_Z 1700000000; deprecated := None;
          deprecation_reason := None; filename := lit "a.pbf";
          kind := lit "pbf"; size := Str (lit "100"); sha256 := None;
          url := lit "https://x/a.pbf"; version := None |}].
Proof. reflexivity. Qed.

(** C6, as stated, fails.  [page.tsx] does not sort: on a manifest that
    lists [pbf] before [gol] it publishes [a.pbf] before [a.gol].  And where
    the pages sort, they sort the enriched records: on the array page the
    checksum requests go out in manifest order, [planet.osm.pbf] first, while
    the published sequence starts with [planet.gol]. *)
Lemma page_tsx_publishes_manifest_order :
  (exists r1 r2,
      files (PageTsx.Page (Sample.serving PageTsx.metadata_url Sample.two_formats))
      = [r1; r2] /\
      extension r1 = lit "pbf" /\ extension r2 = lit "gol" /\
      by_extension lex_compare r1 r2 = 1%Z) /\
  ~ Sorted (ascending (by_extension lex_compare))
      (files (PageTsx.Page (Sample.serving PageTsx.metadata_url Sample.two_formats))) /\
  (let page := Planet.Page Sample.ascii_upper lex_compare
                 (Sample.serving Planet.metadata_url Sample.planet_two) in
   requests page =
   [Planet.metadata_url;
    lit "https://download.openplanetdata.com/osm/planet/v1/planet.osm.pbf.sha256";
    lit "https://download.openplanetdata.com/osm/planet/v1/planet.gol.sha256"] /\
   map filename (files page) = [lit "planet.gol"; lit "planet.osm.pbf"]).
Proof.
  split; [|split].
  - do 2 eexists. repeat split.
  - intros H. vm_compute in H.
    inversion H as [|? ? _ Hd]. inversion Hd as [|? ? Hle]. now apply Hle.
  - split; vm_compute; reflexivity.
Qed.

(** C6, amended.  On the two pages of [part_000] a loaded manifest is
    published sorted ascending by extension under [localeCompare]; the sort
    is applied to the enriched records, which the enrichment returns in
    manifest order, the checksum requests having gone out in that order.
    [page.tsx] publishes the enriched records in manifest order. *)
Theorem published_order
    (toUpperCase : jsstring -> jsstring)
    (localeCompare : jsstring -> jsstring -> Z)
    (net : Network) (res : Response) :
  consistent localeCompare ->
  (forall elements,
      net Planet.metadata_url = Fulfilled res ->
      json res = Fulfilled (FlatArray elements) ->
      let items := map (Planet.item_of toUpperCase) elements in
      let page := Planet.Page toUpperCase localeCompare net in
      exists out,
        fst (withHash items net initial) = Fulfilled out /\
        Forall2 (fun item r => exists h, r = with_sha256 item h) items out /\
        requests page = Planet.metadata_url :: map checksum_url items /\
        files page = sort (by_extension localeCompare) out /\
        Permutation (files page) out /\
        StronglySorted (ascending (by_extension localeCompare)) (files page)) /\
  (forall categories,
      net Legacy.metadata_url = Fulfilled res ->
      json res = Fulfilled (ByCategory categories) ->
      let items := object_items categories in
      let page := Legacy.Page localeCompare net in
      exists out,
        fst (withHash items net initial) = Fulfilled out /\
        Forall2 (fun item r => exists h, r = with_sha256 item h) items out /\
        requests page = Legacy.metadata_url :: map checksum_url items /\
        files page = sort (by_extension localeCompare) out /\
        Permutation (files page) out /\
        StronglySorted (ascending (by_extension localeCompare)) (files page)) /\
  (forall categories,
      net PageTsx.metadata_url = Fulfilled res ->
      json res = Fulfilled (ByCategory categories) ->
      let items := object_items categories in
      let page := PageTsx.Page net in
      exists out,
        fst (withHash items net initial) = Fulfilled out /\
        Forall2 (fun item r => exists h, r = with_sha256 item h) items out /\
        requests page = PageTsx.metadata_url :: map checksum_url items /\
        files page = out).
Proof.
  intros Hcmp.
  assert (Hext : consistent (by_extension localeCompare))
    by (unfold by_extension; now apply consistent_on).
  split; [|split].
  - intros elements Hnet Hjson items page.
    exists (map (enriched net) items). unfold page.
    rewrite (@planet_loaded toUpperCase localeCompare _ _ _ Hnet Hjson), withHash_run. simpl.
    repeat split.
    + apply enriched_pairs.
    + apply sort_perm.
    + now apply sort_sorted.
  - intros categories Hnet Hjson items page.
    exists (map (enriched net) items). unfold page.
    rewrite (@legacy_loaded localeCompare _ _ _ Hnet Hjson), withHash_run. simpl.
    repeat split.
    + apply enriched_pairs.
    + apply sort_perm.
    + now apply sort_sorted.
  - intros categories Hnet Hjson items page.
    exists (map (enriched net) items). unfold page.
    rewrite (@page_tsx_loaded _ _ _ Hnet Hjson), withHash_run. simpl.
    repeat split. apply enriched_pairs.
Qed.

(** The amended C6 on the array page, with code-unit order for
    [localeCompare]: the two files come out [gol] first. *)
Lemma published_order_witness :
  exists out,
    files (Planet.Page Sample.ascii_upper lex_compare
             (Sample.serving Planet.metadata_url Sample.planet_two))
    = sort (by_extension lex_compare) out /\
    StronglySorted (ascending (by_extension lex_compare))
      (files (Planet.Page Sample.ascii_upper lex_compare
                (Sample.serving Planet.metadata_url Sample.planet_two))).
Proof.
  destruct (proj1 (@published_order Sample.ascii_upper lex_compare
                     (Sample.serving Planet.metadata_url Sample.planet_two)
                     {| status := 200; text := Fulfilled [];
                        json := Fulfilled Sample.planet_two |}
                     lex_compare_consistent)
                  _ eq_refl eq_refl)
    as (out & _ & _ & _ & Hfiles & _ & Hsorted).
  exists out. split; [exact Hfiles | exact Hsorted].
Defined.

(** C8.  Sorting by extension a sequence in which every record's extension
    is at most its successor's returns the same sequence. *)
Theorem sort_of_sorted_is_identity
    (localeCompare : jsstring -> jsstring -> Z) (l : list FileItem) :
  Sorted (ascending (by_extension localeCompare)) l ->
  sort (by_extension localeCompare) l = l.
Proof.
  induction 1 as [|x l Hl IH Hx]; [reflexivity|].
  cbn [sort]. rewrite IH.
  inversion Hx as [|y r Hxy]; subst; [reflexivity|].
  cbn [insert]. unfold ascending in Hxy.
  destruct (Z.leb_spec (by_extension localeCompare x y) 0) as [_|Hgt];
    [reflexivity | lia].
Qed.

(** C8 on two records already in order, [gol] before [pbf]. *)
Lemma sort_of_sorted_is_identity_witness :
  sort (by_extension lex_compare) [Sample.a_gol; Sample.a_pbf]
  = [Sample.a_gol; Sample.a_pbf].
Proof.
  apply (@sort_of_sorted_is_identity lex_compare).
  repeat constructor. unfold ascending. vm_compute. discriminate.
Defined.

(** Sorting twice is sorting once, for a consistent [localeCompare]. *)
Lemma sort_twice (localeCompare : jsstring -> jsstring -> Z) (l : list FileItem) :
  consistent localeCompare ->
  sort (by_extension localeCompare) (sort (by_extension localeCompare) l)
  = sort (by_extension localeCompare) l.
Proof.
  intros H. apply sort_idempotent. unfold by_extension. now apply consistent_on.
Qed.

(* ================================================================== *)
(** ** The formatting helpers                                               *)
(* ================================================================== *)

(** From unit index [u], the loop stops within [5 - u] iterations, at an
    index that is still one of the units. *)
Lemma do_while_stops (fuel : nat) :
  forall (bytes : number) (u : Z),
    (-1 <= u <= 4)%Z ->
    (Z.to_nat (5 - u) <= fuel)%nat ->
    exists b u', do_while fuel bytes u = Some (b, u') /\ (u < u' <= 5)%Z.
Proof.
  induction fuel as [|fuel IH]; intros bytes u Hu Hfuel; [lia|].
  cbn [do_while].
  change (Z.of_nat (length units) - 1)%Z with 5%Z.
  destruct (ge (abs (div_by bytes thresh)) (Finite thresh)); cbn [andb].
  - destruct (Z.ltb_spec (u + 1) 5) as [Hlt|Hge].
    + destruct (IH (div_by bytes thresh) (u + 1)%Z) as (b & u' & Hrun & Hu'); try lia.
      exists b, u'. split; [exact Hrun | lia].
    + eexists _, _. split; [reflexivity | lia].
  - eexists _, _. split; [reflexivity | lia].
Qed.

Lemma do_while_more_fuel (fuel extra : nat) :
  forall (bytes : number) (u : Z) (r : number * Z),
    do_while fuel bytes u = Some r ->
    do_while (fuel + extra) bytes u = Some r.
Proof.
  induction fuel as [|fuel IH]; intros bytes u r; [discriminate|].
  cbn [do_while Nat.add].
  destruct (ge (abs (div_by bytes thresh)) (Finite thresh)
            && (u + 1 <? Z.of_nat (length units) - 1)%Z); [apply IH | tauto].
Qed.

Lemma unit_at_index (u : Z) :
  (0 <= u <= 5)%Z ->
  exists name, index units (Z.to_nat u) = Some name /\ In name units /\ unit_at u = name.
Proof.
  intros Hu. unfold unit_at.
  destruct (Z.ltb_spec u 0) as [|_]; [lia|].
  assert (Hn : (Z.to_nat u < length units)%nat) by (simpl; lia).
  apply nth_error_Some in Hn. unfold index.
  destruct (nth_error units (Z.to_nat u)) as [name|] eqn:E; [|contradiction].
  exists name. repeat split. now apply nth_error_In in E.
Qed.

(** C9.  For every byte count the loop of [humanFileSize] ends within 6
    iterations, with [u] an index of [units]: 6 units of fuel, or more, give
    a string, which is the plain [B] form below 1024 and otherwise carries
    one of the units [KiB] to [EiB]. *)
Theorem humanFileSize_stays_within_units
    (numberToString toFixed1 : number -> jsstring)
    (bytes : number) (extra : nat) :
  exists s,
    humanFileSize numberToString toFixed1 (6 + extra) bytes = Some s /\
    ((lt (abs bytes) (Finite thresh) = true /\
      s = numberToString bytes ++ lit " B") \/
     (lt (abs bytes) (Finite thresh) = false /\
      exists b u name,
        do_while 6 bytes (-1) = Some (b, u) /\
        (0 <= u <= 5)%Z /\
        index units (Z.to_nat u) = Some name /\
        In name units /\
        s = toFixed1 b ++ lit " " ++ name)).
Proof.
  unfold humanFileSize.
  destruct (lt (abs bytes) (Finite thresh)) eqn:Hsmall.
  - eexists. split; [reflexivity|]. left. split; reflexivity.
  - destruct (@do_while_stops 6 bytes (-1)%Z) as (b & u & Hrun & Hu);
      [lia | simpl; lia |].
    rewrite (@do_while_more_fuel 6 extra bytes (-1)%Z (b, u) Hrun).
    destruct (@unit_at_index u) as (name & Hidx & Hin & Hname); [lia|].
    eexists. split; [reflexivity|]. right. split; [reflexivity|].
    exists b, u, name. rewrite Hname. repeat split; auto; lia.
Qed.

(** One MiB and the largest magnitudes, evaluated. *)
Example do_while_one_MiB :
  do_while 6 (of_Z 1048576) (-1) = Some (Finite (1048576 / 1024 / 1024)%Q, 1%Z).
Proof. reflexivity. Qed.

Example do_while_overflowing :
  do_while 6 (of_Z (2 ^ 80)) (-1)
  = Some (Finite (inject_Z (2 ^ 80) / 1024 / 1024 / 1024 / 1024 / 1024 / 1024)%Q, 5%Z).
Proof. vm_compute. reflexivity. Qed.

Lemma clamp_index_inside (len i : Z) :
  (0 <= i <= len)%Z -> clamp_index len i = i.
Proof.
  intros H. unfold clamp_index.
  destruct (Z.ltb_spec i 0); [lia | apply Z.min_l; lia].
Qed.

Lemma clamp_index_from_end (len i : Z) :
  (i < 0 <= len + i)%Z -> clamp_index len i = (len + i)%Z.
Proof.
  intros H. unfold clamp_index.
  destruct (Z.ltb_spec i 0); [apply Z.max_l; lia | lia].
Qed.

Lemma slice_head (h : jsstring) :
  (8 <= length h)%nat -> slice h 0 (Some 8%Z) = firstn 8 h.
Proof.
  intros Hlen. unfold slice, str_length.
  rewrite !clamp_index_inside by lia.
  rewrite Z.max_l by lia. reflexivity.
Qed.

Lemma slice_tail (h : jsstring) :
  (8 <= length h)%nat -> slice h (-8) None = skipn (length h - 8) h.
Proof.
  intros Hlen. unfold slice, str_length.
  rewrite clamp_index_from_end by lia.
  rewrite Z.max_l by lia.
  replace (Z.to_nat (Z.of_nat (length h) + -8)) with (length h - 8)%nat by lia.
  apply firstn_all2. rewrite length_skipn. lia.
Qed.

(** C10.  [truncateHash] returns [undefined] and every hash of at most 16
    code units as they are; a longer hash becomes 17 code units: its first
    eight, the ellipsis, its last eight. *)
Theorem truncateHash_shortens_long_hashes (h : jsstring) :
  truncateHash None = None /\
  ((length h <= 16)%nat -> truncateHash (Some h) = Some h) /\
  ((16 < length h)%nat ->
   truncateHash (Some h)
   = Some (firstn 8 h ++ [ellipsis] ++ skipn (length h - 8) h) /\
   length (firstn 8 h ++ [ellipsis] ++ skipn (length h - 8) h) = 17%nat /\
   length (firstn 8 h) = 8%nat /\
   length (skipn (length h - 8) h) = 8%nat).
Proof.
  split; [reflexivity|]. split.
  - intros Hlen. destruct h as [|c r]; [reflexivity|].
    unfold truncateHash, str_length.
    destruct (Z.gtb_spec (Z.of_nat (length (c :: r))) 16); [lia | reflexivity].
  - intros Hlen. destruct h as [|c r]; [simpl in Hlen; lia|].
    unfold truncateHash, str_length.
    destruct (Z.gtb_spec (Z.of_nat (length (c :: r))) 16); [|lia].
    rewrite slice_head, slice_tail by lia.
    assert (H8 : length (firstn 8 (c :: r)) = 8%nat) by (rewrite length_firstn; lia).
    assert (T8 : length (skipn (length (c :: r) - 8) (c :: r)) = 8%nat)
      by (rewrite length_skipn; lia).
    repeat split; auto.
    rewrite !length_app, H8, T8. reflexivity.
Qed.

(** C10 on a SHA-256 digest and on the sentinel. *)
Lemma truncateHash_shortens_long_hashes_witness :
  truncateHash
    (Some (lit "e3b0c44298fc1c149afbf4c8996fb92427ae41e4649b934ca495991b7852b855"))
  = Some (lit "e3b0c442" ++ [ellipsis] ++ lit "7852b855") /\
  truncateHash (Some (lit "N/A")) = Some (lit "N/A").
Proof.
  split.
  - refine (proj1 (proj2 (proj2 (@truncateHash_shortens_long_hashes
       (lit "e3b0c44298fc1c149afbf4c8996fb92427ae41e4649b934ca495991b7852b855"))) _)).
    simpl. lia.
  - refine (proj1 (proj2 (@truncateHash_shortens_long_hashes (lit "N/A"))) _).
    simpl. lia.
Defined.

(* ================================================================== *)
(** ** Further properties of the formatting helpers                     *)
(* ================================================================== *)

Lemma ge_abs_thresh (q : Q) :
  ge (abs (Finite q)) (Finite thresh) = true <-> (thresh <= Qabs q)%Q.
Proof.
  simpl. rewrite negb_involutive. apply Qle_bool_iff.
Qed.

Lemma Qabs_div_thresh (q : Q) : (Qabs (q / thresh) == Qabs q / thresh)%Q.
Proof.
  unfold Qdiv. rewrite Qabs_Qmult.
  assert (H : (Qabs (/ thresh) == / thresh)%Q) by reflexivity.
  now rewrite H.
Qed.

(** The loop on a finite value: what was divided out is a power of 1024,
    at least one unit is left, and fewer than 1024 unless the units ran out. *)
Lemma do_while_scales (fuel : nat) :
  forall (q : Q) (u : Z) (b : number) (u' : Z),
    (thresh <= Qabs q)%Q ->
    do_while fuel (Finite q) u = Some (b, u') ->
    exists qb,
      b = Finite qb /\ (u < u')%Z /\
      (qb * inject_Z (1024 ^ (u' - u)) == q)%Q /\
      (1 <= Qabs qb)%Q /\
      ((u' < 5)%Z -> (Qabs qb < thresh)%Q).
Proof.
  induction fuel as [|fuel IH]; intros q u b u' Hq Hrun; [discriminate|].
  cbn [do_while] in Hrun.
  change (Z.of_nat (length units) - 1)%Z with 5%Z in Hrun.
  change (div_by (Finite q) thresh) with (Finite (q / thresh)) in Hrun.
  assert (Hone : (1 <= Qabs (q / thresh))%Q).
  { rewrite Qabs_div_thresh. apply Qle_shift_div_l; [reflexivity|].
    now rewrite Qmult_1_l. }
  destruct (ge (abs (Finite (q / thresh))) (Finite thresh)) eqn:Hbig;
    cbn [andb] in Hrun.
  - destruct (Z.ltb_spec (u + 1) 5) as [Hlt|Hge].
    + apply ge_abs_thresh in Hbig.
      destruct (IH (q / thresh)%Q (u + 1)%Z b u' Hbig Hrun) as (qb & -> & Hu & Hscale & H1 & Hsmall).
      exists qb. repeat split; auto; [lia|].
      replace (u' - u)%Z with ((u' - (u + 1)) + 1)%Z by lia.
      rewrite Z.pow_add_r, inject_Z_mult by lia.
      rewrite Qmult_assoc, Hscale. change (inject_Z (1024 ^ 1)) with thresh.
      field. discriminate.
    + injection Hrun as <- <-. exists (q / thresh)%Q. repeat split; auto; [lia| |lia].
      replace (u + 1 - u)%Z with 1%Z by lia. change (inject_Z (1024 ^ 1)) with thresh.
      field. discriminate.
  - injection Hrun as <- <-. exists (q / thresh)%Q. repeat split; auto; [lia| |].
    + replace (u + 1 - u)%Z with 1%Z by lia. change (inject_Z (1024 ^ 1)) with thresh.
      field. discriminate.
    + intros _. apply Qnot_le_lt. intros Hle.
      apply ge_abs_thresh in Hle. congruence.
Qed.

(** For a finite byte count of magnitude at least 1024, the value handed
    to [toFixed(1)] is the count divided by [1024^(u+1)], where [u] is the
    index of the unit; its magnitude is at least 1, and below 1024 unless the
    unit is the last one. *)
Lemma humanFileSize_mantissa
    (numberToString toFixed1 : number -> jsstring) (q : Q) (extra : nat) :
  (thresh <= Qabs q)%Q ->
  exists b u name,
    humanFileSize numberToString toFixed1 (6 + extra) (Finite q)
    = Some (toFixed1 (Finite b) ++ lit " " ++ name) /\
    (0 <= u <= 5)%Z /\
    index units (Z.to_nat u) = Some name /\
    (b * inject_Z (1024 ^ (u + 1)) == q)%Q /\
    (1 <= Qabs b)%Q /\
    ((u < 5)%Z -> (Qabs b < thresh)%Q).
Proof.
  intros Hq. unfold humanFileSize.
  assert (Hbranch : lt (abs (Finite q)) (Finite thresh) = false).
  { apply ge_abs_thresh in Hq. simpl in *. now apply negb_true_iff in Hq. }
  rewrite Hbranch.
  destruct (@do_while_stops 6 (Finite q) (-1)%Z) as (b & u & Hrun & Hu);
    [lia | simpl; lia |].
  destruct (@do_while_scales 6 q (-1)%Z b u Hq Hrun) as (qb & -> & _ & Hscale & H1 & Hsmall).
  rewrite (@do_while_more_fuel 6 extra (Finite q) (-1)%Z (Finite qb, u) Hrun).
  destruct (@unit_at_index u) as (name & Hidx & _ & Hname); [lia|].
  exists qb, u, name. rewrite Hname.
  replace (u + 1)%Z with (u - -1)%Z by lia.
  repeat split; auto; lia.
Qed.

Lemma toFixed_below_1024 (numberToString : number -> jsstring) (b : Q) :
  (1 <= Qabs b)%Q -> (Qabs b < thresh)%Q ->
  let n := Qfloor (Qabs b * inject_Z 10 + (1 # 2)) in
  (10 <= n <= 10240)%Z /\
  toFixed numberToString (Finite b)
  = (if Qle_bool 0 b then [] else lit "-")
    ++ decimal (n / 10) ++ lit "." ++ decimal (n mod 10).
Proof.
  intros Hlow Hhigh n. split; [split|].
  - change 10%Z with (Qfloor (21 # 2)). apply Qfloor_resp_le.
    apply Qle_trans with (1 * inject_Z 10 + (1 # 2))%Q; [discriminate|].
    apply Qplus_le_l, Qmult_le_r; [reflexivity | exact Hlow].
  - assert (H : (inject_Z n < 20481 # 2)%Q).
    { apply Qle_lt_trans with (Qabs b * inject_Z 10 + (1 # 2))%Q;
        [apply Qfloor_le|].
      apply Qlt_le_trans with (thresh * inject_Z 10 + (1 # 2))%Q;
        [|discriminate].
      apply Qplus_lt_l, Qmult_lt_r; [reflexivity | exact Hhigh]. }
    unfold Qlt in H. simpl in H. lia.
  - unfold toFixed.
    assert (Hbig : Qle_bool (inject_Z (10 ^ 21)) (Qabs b) = false).
    { destruct (Qle_bool (inject_Z (10 ^ 21)) (Qabs b)) eqn:E; [|reflexivity].
      apply Qle_bool_iff in E. exfalso.
      apply (Qlt_irrefl (Qabs b)).
      apply Qlt_le_trans with thresh; [exact Hhigh|].
      apply Qle_trans with (inject_Z (10 ^ 21)); [discriminate | exact E]. }
    rewrite Hbig. reflexivity.
Qed.

(** X1.  For a finite byte count of magnitude at least 1024, what
    [humanFileSize] hands to [toFixed(1)] is the count divided by
    [1024^(u+1)], where [u] is the index of the unit it prints.  That value
    has magnitude at least 1 and, unless the unit is the last one, below
    1024; [toFixed(1)] rounds it to a tenth, so what is printed lies between
    [1.0] and [1024.0], both included: a count just below the next unit
    prints as [1024.0] of the smaller one. *)
Theorem humanFileSize_prints_up_to_1024
    (numberToString : number -> jsstring) (q : Q) (extra : nat) :
  (thresh <= Qabs q)%Q ->
  exists b u name,
    humanFileSize numberToString (toFixed numberToString) (6 + extra) (Finite q)
    = Some (toFixed numberToString (Finite b) ++ lit " " ++ name) /\
    (0 <= u <= 5)%Z /\
    index units (Z.to_nat u) = Some name /\
    (b * inject_Z (1024 ^ (u + 1)) == q)%Q /\
    (1 <= Qabs b)%Q /\
    ((u < 5)%Z ->
     (Qabs b < thresh)%Q /\
     let n := Qfloor (Qabs b * inject_Z 10 + (1 # 2)) in
     (10 <= n <= 10240)%Z /\
     toFixed numberToString (Finite b)
     = (if Qle_bool 0 b then [] else lit "-")
       ++ decimal (n / 10) ++ lit "." ++ decimal (n mod 10)).
Proof.
  intros Hq.
  destruct (@humanFileSize_mantissa numberToString (toFixed numberToString)
              q extra Hq)
    as (b & u & name & Hrun & Hu & Hname & Hscale & Hone & Hsmall).
  exists b, u, name.
  split; [exact Hrun|]. split; [exact Hu|]. split; [exact Hname|].
  split; [exact Hscale|]. split; [exact Hone|].
  intros Hlt. split; [now apply Hsmall|].
  exact (@toFixed_below_1024 numberToString b Hone (Hsmall Hlt)).
Qed.

(** One byte less than a MiB prints as [1024.0 KiB], and 5 GiB as
    [5.0 GiB]. *)
Example just_below_one_MiB :
  humanFileSize (fun _ => []) (toFixed (fun _ => [])) 6 (of_Z 1048575)
  = Some (lit "1024.0 KiB") /\
  humanFileSize (fun _ => []) (toFixed (fun _ => [])) 6 (of_Z 5368709120)
  = Some (lit "5.0 GiB") /\
  humanFileSize (fun _ => []) (toFixed (fun _ => [])) 6 (of_Z (-1536))
  = Some (lit "-1.5 KiB").
Proof. repeat split; vm_compute; reflexivity. Qed.

(** X1 on one byte less than a MiB. *)
Lemma humanFileSize_prints_up_to_1024_witness :
  exists b u name,
    humanFileSize (fun _ => []) (toFixed (fun _ => [])) 6 (of_Z 1048575)
    = Some (toFixed (fun _ => []) (Finite b) ++ lit " " ++ name) /\
    (0 <= u <= 5)%Z /\
    index units (Z.to_nat u) = Some name /\
    (b * inject_Z (1024 ^ (u + 1)) == 1048575)%Q /\
    (1 <= Qabs b)%Q /\
    ((u < 5)%Z ->
     (Qabs b < thresh)%Q /\
     let n := Qfloor (Qabs b * inject_Z 10 + (1 # 2)) in
     (10 <= n <= 10240)%Z /\
     toFixed (fun _ => []) (Finite b)
     = (if Qle_bool 0 b then [] else lit "-")
       ++ decimal (n / 10) ++ lit "." ++ decimal (n mod 10)).
Proof.
  apply (@humanFileSize_prints_up_to_1024 (fun _ => [])
           (inject_Z 1048575) 0).
  vm_compute. discriminate.
Defined.

Example five_GiB :
  do_while 6 (of_Z 5368709120) (-1)
  = Some (Finite (5368709120 / 1024 / 1024 / 1024)%Q, 2%Z).
Proof. reflexivity. Qed.

(** X2.  A byte count that is not a number takes the loop once and is
    printed in [KiB]; an infinite one runs through all the units and is
    printed in [EiB]. *)
Theorem humanFileSize_not_finite
    (numberToString toFixed1 : number -> jsstring) (extra : nat) :
  humanFileSize numberToString toFixed1 (6 + extra) NaN
  = Some (toFixed1 NaN ++ lit " KiB") /\
  forall negative,
    humanFileSize numberToString toFixed1 (6 + extra) (Infinity negative)
    = Some (toFixed1 (Infinity negative) ++ lit " EiB").
Proof.
  split; [reflexivity|]. intros [|]; reflexivity.
Qed.

Lemma truncateHash_short (h : jsstring) :
  (length h <= 16)%nat -> truncateHash (Some h) = Some h.
Proof.
  intros Hlen. destruct h as [|c r]; [reflexivity|].
  unfold truncateHash, str_length.
  destruct (Z.gtb_spec (Z.of_nat (length (c :: r))) 16); [lia | reflexivity].
Qed.

Lemma truncateHash_long (h : jsstring) :
  (16 < length h)%nat ->
  truncateHash (Some h)
  = Some (firstn 8 h ++ [ellipsis] ++ skipn (length h - 8) h).
Proof.
  intros Hlen. destruct h as [|c r]; [simpl in Hlen; lia|].
  unfold truncateHash, str_length.
  destruct (Z.gtb_spec (Z.of_nat (length (c :: r))) 16); [|lia].
  now rewrite slice_head, slice_tail by lia.
Qed.

(** X3.  Truncating twice is truncating once, and what is shown is never
    longer than 17 code units nor than the hash. *)
Theorem truncateHash_idempotent (hash : option jsstring) :
  truncateHash (truncateHash hash) = truncateHash hash /\
  forall h, hash = Some h ->
    exists shown,
      truncateHash hash = Some shown /\
      length shown = Nat.min (length h) 17.
Proof.
  destruct hash as [h|]; [|split; [reflexivity | discriminate]].
  destruct (Nat.leb_spec (length h) 16) as [Hshort|Hlong].
  - rewrite (truncateHash_short h Hshort). split.
    + now apply truncateHash_short.
    + intros h' [= <-]. exists h. split; [reflexivity | lia].
  - rewrite (truncateHash_long h Hlong).
    set (a := firstn 8 h). set (b := skipn (length h - 8) h).
    assert (Ha : length a = 8%nat) by (unfold a; rewrite length_firstn; lia).
    assert (Hb : length b = 8%nat) by (unfold b; rewrite length_skipn; lia).
    assert (Hlen : length (a ++ [ellipsis] ++ b) = 17%nat)
      by (rewrite !length_app, Ha, Hb; reflexivity).
    split.
    + rewrite truncateHash_long by lia. f_equal.
      rewrite Hlen. f_equal; [|f_equal].
      * rewrite firstn_app, Ha, Nat.sub_diag, firstn_O, app_nil_r.
        apply firstn_all2. lia.
      * rewrite skipn_app, Ha.
        rewrite (skipn_all2 (n := 17 - 8) a) by lia. reflexivity.
    + intros h' [= <-]. exists (a ++ [ellipsis] ++ b). split; [reflexivity | lia].
Qed.

(* ================================================================== *)
(** ** The table row                                                    *)
(* ================================================================== *)

Lemma str_eqb_eq (a b : jsstring) : str_eqb a b = true <-> a = b.
Proof.
  unfold str_eqb. destruct (str_eq_dec a b); split; auto; discriminate.
Qed.

Lemma replace_unfold (pat rep s : jsstring) :
  replace pat rep s =
  if starts_with pat s then rep ++ skipn (length pat) s
  else match s with
       | [] => []
       | c :: r => c :: replace pat rep r
       end.
Proof. destruct s; reflexivity. Qed.

Lemma starts_with_app (pat s : jsstring) : starts_with pat (pat ++ s) = true.
Proof.
  induction pat as [|p pat IH]; simpl; [reflexivity|].
  now rewrite N.eqb_refl, IH.
Qed.

Lemma replace_prefix (pat rep s : jsstring) :
  replace pat rep (pat ++ s) = rep ++ s.
Proof.
  rewrite replace_unfold, starts_with_app.
  now rewrite skipn_app, skipn_all, Nat.sub_diag.
Qed.

Lemma skipn_incl (A : Type) (n : nat) (l : list A) (x : A) :
  In x (skipn n l) -> In x l.
Proof.
  intros H. rewrite <- (firstn_skipn n l). apply in_or_app. now right.
Qed.

Lemma replace_erases_incl (pat s : jsstring) (x : code_unit) :
  In x (replace pat [] s) -> In x s.
Proof.
  induction s as [|c r IH]; rewrite replace_unfold.
  - destruct (starts_with pat []); simpl; [|tauto].
    rewrite skipn_nil. tauto.
  - destruct (starts_with pat (c :: r)).
    + simpl app. apply skipn_incl.
    + intros [<-|H]; [now left | right; now apply IH].
Qed.

(** X4.  [copyHash] acts exactly when the copy button is rendered.  Without
    the button it changes nothing.  With it, the text handed to the
    clipboard is the record's [sha256], which is neither empty nor ["N/A"];
    if the clipboard refuses, the row is left as it was, [copied] included. *)
Theorem copyHash_follows_button
    (writeText : HashRow.Permission) (file : FileItem) (s : HashRow.State) :
  (HashRow.shows_copy_button file = false ->
   HashRow.copyHash writeText file s = (Fulfilled tt, s)) /\
  (HashRow.shows_copy_button file = true ->
   exists h,
     sha256 file = Some h /\ h <> [] /\ h <> lit "N/A" /\
     ((exists e, writeText h = Rejected e /\
                 HashRow.copyHash writeText file s = (Rejected e, s)) \/
      (writeText h = Fulfilled tt /\
       HashRow.copyHash writeText file s =
       (Fulfilled tt,
        {| HashRow.copied := true;
           HashRow.rcloneOpen := HashRow.rcloneOpen s;
           HashRow.rcloneCopied := HashRow.rcloneCopied s;
           HashRow.clipboard := Some h;
           HashRow.timers := HashRow.timers s ++ [(1500%Z, HashRow.ResetCopied)] |})))).
Proof.
  unfold HashRow.shows_copy_button, HashRow.copyHash.
  destruct (sha256 file) as [[|c r]|]; split; try discriminate; try reflexivity.
  - intros H. apply negb_false_iff in H. now rewrite H.
  - intros H. apply negb_true_iff in H. rewrite H.
    exists (c :: r). repeat split; try discriminate.
    + intros E. apply str_eqb_eq in E. congruence.
    + destruct (writeText (c :: r)) as [[]|e]; [right | left; exists e]; auto.
Qed.

(** X4 on a record with a digest, the clipboard granting the write. *)
Lemma copyHash_follows_button_witness :
  HashRow.clipboard
    (snd (HashRow.copyHash TzSample.granted
            (with_sha256 Sample.a_pbf (lit "deadbeef")) HashRow.start))
  = Some (lit "deadbeef") /\
  HashRow.copyHash TzSample.denied (with_sha256 Sample.a_pbf (lit "N/A")) HashRow.start
  = (Fulfilled tt, HashRow.start).
Proof.
  split.
  - destruct (proj2 (@copyHash_follows_button TzSample.granted
                       (with_sha256 Sample.a_pbf (lit "deadbeef")) HashRow.start)
                    eq_refl)
      as (h & Hh & _ & _ & [(e & He & _)|(_ & Hrun)]).
    + discriminate.
    + rewrite Hrun. simpl. now injection Hh as <-.
  - exact (proj1 (@copyHash_follows_button TzSample.denied
                    (with_sha256 Sample.a_pbf (lit "N/A")) HashRow.start) eq_refl).
Defined.

(** X5.  A record whose checksum fetch rejected comes out of the
    enrichment without a copy button, and so does one whose companion body
    is empty or starts with a space; a record whose companion starts with a
    hexadecimal digest and a space gets the button, and the button copies
    that digest. *)
Theorem enriched_record_copy_button
    (net : Network) (item : FileItem) (w : World) :
  exists r,
    fst (enrich item net w) = Fulfilled r /\
    (rejected (net (checksum_url item)) ->
     HashRow.shows_copy_button r = false) /\
    (forall resp rest,
        net (checksum_url item) = Fulfilled resp ->
        text resp = Fulfilled [] \/ text resp = Fulfilled (space :: rest) ->
        HashRow.shows_copy_button r = false) /\
    (forall resp d rest writeText s,
        net (checksum_url item) = Fulfilled resp ->
        text resp = Fulfilled (d ++ space :: rest) ->
        is_hex_digest d = true ->
        writeText d = Fulfilled tt ->
        HashRow.shows_copy_button r = true /\
        HashRow.clipboard (snd (HashRow.copyHash writeText r s)) = Some d).
Proof.
  exists (enriched net item). rewrite enrich_run. split; [reflexivity|].
  unfold enriched, HashRow.shows_copy_button, HashRow.copyHash.
  cbn [sha256 with_sha256].
  split; [|split].
  - intros H. now rewrite (digest_of_rejected _ H).
  - intros resp rest Hnet Htext. unfold digest_of. rewrite Hnet.
    destruct Htext as [-> | ->]; [reflexivity|].
    now rewrite split_cons_sep.
  - intros resp d rest writeText s Hnet Htext Hd Hwrite.
    unfold digest_of. rewrite Hnet, Htext.
    rewrite digest_line by (auto; right; left; eauto).
    destruct d as [|c d']; [discriminate|].
    assert (N : str_eqb (c :: d') (lit "N/A") = false).
    { destruct (str_eqb (c :: d') (lit "N/A")) eqn:E; [|reflexivity].
      apply str_eqb_eq in E. rewrite E in Hd. discriminate. }
    rewrite N, Hwrite. split; reflexivity.
Qed.

(** X5 on a record whose checksum request fails. *)
Lemma enriched_record_copy_button_witness :
  exists r,
    fst (enrich Sample.a_pbf Sample.first_fails initial) = Fulfilled r /\
    HashRow.shows_copy_button r = false.
Proof.
  destruct (@enriched_record_copy_button Sample.first_fails Sample.a_pbf initial)
    as (r & Hrun & Hrejected & _).
  exists r. split; [exact Hrun | exact (Hrejected I)].
Defined.

(** The enrichment and the row on the specification's scenario body. *)
Example scenario_copy :
  HashRow.copyHash TzSample.granted
    (enriched (Sample.all_ok (lit "deadbeef  a.pbf" ++ [10%N])) Sample.a_pbf)
    HashRow.start
  = (Fulfilled tt,
     {| HashRow.copied := true; HashRow.rcloneOpen := false;
        HashRow.rcloneCopied := false;
        HashRow.clipboard := Some (lit "deadbeef");
        HashRow.timers := [(1500%Z, HashRow.ResetCopied)] |}).
Proof. vm_compute. reflexivity. Qed.

(** X6.  The path of the rclone command is the address without the download
    host when the address starts with it; for a record of the array page it
    is [remote_path/v<remote_version>/<remote_filename>]. *)
Theorem path_strips_the_host
    (toUpperCase : jsstring -> jsstring) (file : FileItem)
    (item : PlanetMetadata.t) :
  (forall rest,
      url file = Planet.base ++ rest -> HashRow.path file = rest) /\
  HashRow.path (Planet.item_of toUpperCase item)
  = PlanetMetadata.remote_path item ++ lit "/v"
    ++ PlanetMetadata.remote_version item ++ lit "/"
    ++ PlanetMetadata.remote_filename item.
Proof.
  split.
  - intros rest Hurl. unfold HashRow.path. rewrite Hurl.
    apply (replace_prefix Planet.base [] rest).
  - unfold HashRow.path, Planet.item_of. cbn [url].
    apply (replace_prefix Planet.base []).
Qed.

(** X6 on the time-zone file of the first page. *)
Lemma path_strips_the_host_witness :
  HashRow.path TzSample.tz_record
  = lit "tz/planet/geoparquet/v1/planet-latest.tz.parquet".
Proof.
  exact (proj1 (@path_strips_the_host Sample.ascii_upper TzSample.tz_record
                  (Sample.planet_element "pbf" "planet.osm.pbf" (Num (of_Z 1))))
               (lit "tz/planet/geoparquet/v1/planet-latest.tz.parquet") eq_refl).
Defined.

(** X7.  An address that does not hold the download host is left whole:
    the path is the address itself, scheme and host included. *)
Theorem path_of_foreign_address (file : FileItem) :
  includes Planet.base (url file) = false ->
  HashRow.path file = url file.
Proof.
  unfold HashRow.path. change (lit "https://download.openplanetdata.com/")
    with Planet.base.
  generalize (url file) as s.
  induction s as [|c r IH]; intros H; rewrite replace_unfold.
  - reflexivity.
  - cbn [includes] in H. apply orb_false_elim in H as [-> Hr].
    now rewrite IH.
Qed.

Lemma path_of_foreign_address_witness :
  HashRow.path Sample.a_pbf = lit "https://x/a.pbf".
Proof.
  apply (@path_of_foreign_address Sample.a_pbf). reflexivity.
Defined.

Lemma split_no_sep (sep : code_unit) (x : jsstring) :
  ~ In sep x -> split sep x = [x].
Proof.
  induction x as [|c r IH]; intros H; [reflexivity|].
  rewrite split_cons_other by (intros ->; apply H; now left).
  rewrite IH by (intros Hr; apply H; now right). reflexivity.
Qed.

Lemma split_app_sep (sep : code_unit) (x r : jsstring) :
  ~ In sep x -> split sep (x ++ sep :: r) = x :: split sep r.
Proof.
  induction x as [|c x IH]; intros H.
  - apply split_cons_sep.
  - rewrite <- app_comm_cons.
    rewrite split_cons_other by (intros ->; apply H; now left).
    rewrite IH by (intros Hr; apply H; now right). reflexivity.
Qed.

(** Joining on a separator and splitting on it gives the pieces back. *)
Lemma split_join (sep : code_unit) (l : list jsstring) :
  l <> [] ->
  Forall (fun x => ~ In sep x) l ->
  split sep (join [sep] l) = l.
Proof.
  induction l as [|x r IH]; intros Hne Hall; [contradiction|].
  inversion Hall as [|? ? Hx Hr]; subst.
  destruct r as [|y r'].
  - simpl. now apply split_no_sep.
  - change (join [sep] (x :: y :: r')) with (x ++ sep :: join [sep] (y :: r')).
    rewrite split_app_sep by assumption.
    rewrite IH; [reflexivity | discriminate | assumption].
Qed.

Lemma absent_by_test (x : code_unit) (l : jsstring) :
  forallb (fun c => negb (N.eqb c x)) l = true -> ~ In x l.
Proof.
  intros H Hin. rewrite forallb_forall in H. specialize (H x Hin).
  now rewrite N.eqb_refl in H.
Qed.

Lemma rclone_lines_one_per_line (streams chunk : string) (file : FileItem) :
  ~ In HashRow.newline (lit streams) ->
  ~ In HashRow.newline (lit chunk) ->
  ~ In HashRow.newline (url file) ->
  Forall (fun x => ~ In HashRow.newline x) (HashRow.rclone_lines streams chunk file).
Proof.
  intros Hs Hc Hu.
  assert (Hp : ~ In HashRow.newline (HashRow.path file)).
  { intros H. apply Hu. unfold HashRow.path in H.
    now apply replace_erases_incl in H. }
  unfold HashRow.rclone_lines.
  repeat constructor;
    try (apply absent_by_test; reflexivity);
    intros H;
    repeat (apply in_app_or in H; destruct H as [H|H]);
    try contradiction;
    revert H; apply absent_by_test; reflexivity.
Qed.

(** X8.  When the address of the record holds no line feed, the command of
    either page splits at line feeds into the seven lines of its array, the
    third of which carries the path as it is: joining does not blur the
    lines. *)
Theorem rcloneCmd_lines (file : FileItem) :
  ~ In HashRow.newline (url file) ->
  split HashRow.newline (PlanetRow.rcloneCmd file)
  = HashRow.rclone_lines "768" "120M" file /\
  split HashRow.newline (LegacyRow.rcloneCmd file)
  = HashRow.rclone_lines "64" "512M" file /\
  index (split HashRow.newline (PlanetRow.rcloneCmd file)) 2
  = Some (lit "    :http:" ++ HashRow.path file ++ lit " . " ++ [HashRow.backslash]) /\
  length (split HashRow.newline (PlanetRow.rcloneCmd file)) = 7%nat.
Proof.
  intros Hu.
  assert (P : split HashRow.newline (PlanetRow.rcloneCmd file)
              = HashRow.rclone_lines "768" "120M" file).
  { apply split_join; [discriminate|].
    apply rclone_lines_one_per_line; auto; apply absent_by_test; reflexivity. }
  assert (L : split HashRow.newline (LegacyRow.rcloneCmd file)
              = HashRow.rclone_lines "64" "512M" file).
  { apply split_join; [discriminate|].
    apply rclone_lines_one_per_line; auto; apply absent_by_test; reflexivity. }
  rewrite P, L. repeat split.
Qed.

(** X8 on the time-zone file. *)
Lemma rcloneCmd_lines_witness :
  index (split HashRow.newline (PlanetRow.rcloneCmd TzSample.tz_record)) 2
  = Some (lit "    :http:tz/planet/geoparquet/v1/planet-latest.tz.parquet . "
          ++ [HashRow.backslash]).
Proof.
  refine (eq_trans
            (proj1 (proj2 (proj2 (@rcloneCmd_lines TzSample.tz_record _)))) _).
  - apply absent_by_test. reflexivity.
  - reflexivity.
Defined.

(* ================================================================== *)
(** ** The time-zone section                                            *)
(* ================================================================== *)

Lemma tz_token_run (body : jsstring) (net : Tz.Net) (s : Tz.State) :
  Tz.token body net s = (Fulfilled (trim (hd [] (split space body))), s).
Proof.
  unfold Tz.token, index.
  destruct (split space body) as [|p ps] eqn:E.
  - now apply split_not_nil in E.
  - reflexivity.
Qed.

(** The section when the metadata cannot be had. *)
Lemma tz_effect_failed (baseUrl kind : jsstring) (net : Tz.Net) :
  (exists e, net (baseUrl ++ lit ".metadata") = Rejected e) \/
  (exists r e, net (baseUrl ++ lit ".metadata") = Fulfilled r /\
               Tz.answer_json r = Rejected e) ->
  snd (Tz.effect baseUrl kind net Tz.start) =
  {| Tz.asked := [baseUrl ++ lit ".metadata"];
     Tz.tzFile := None;
     Tz.tzLoading := false |}.
Proof.
  unfold Tz.effect, Tz.finally, Tz.and_then, Tz.get, Tz.settled.
  intros [[e He]|(r & e & Hr & He)].
  - rewrite He. reflexivity.
  - rewrite Hr, He. reflexivity.
Qed.

(** The section when the metadata is served. *)
Lemma tz_effect_loaded (baseUrl kind : jsstring) (net : Tz.Net)
    (r : Tz.Answer) (meta : Meta.t) :
  net (baseUrl ++ lit ".metadata") = Fulfilled r ->
  Tz.answer_json r = Fulfilled meta ->
  exists sha,
    snd (Tz.effect baseUrl kind net Tz.start) =
    {| Tz.asked := [baseUrl ++ lit ".metadata"; baseUrl ++ lit ".sha256"];
       Tz.tzFile :=
         Some {| created := Meta.created meta;
                 deprecated := None;
                 deprecation_reason := None;
                 filename := or_empty (pop (split slash baseUrl));
                 kind := kind;
                 size := Meta.size meta;
                 sha256 := Some sha;
                 url := baseUrl;
                 version := None |};
       Tz.tzLoading := false |} /\
    match net (baseUrl ++ lit ".sha256") with
    | Rejected _ => sha = lit "N/A"
    | Fulfilled r' =>
        match Tz.answer_text r' with
        | Rejected _ => sha = lit "N/A"
        | Fulfilled body => sha = trim (hd [] (split space body))
        end
    end.
Proof.
  intros Hr Hmeta.
  unfold Tz.effect, Tz.finally, Tz.and_then, Tz.get, Tz.settled, Tz.catching.
  rewrite Hr, Hmeta. cbn [Tz.asked Tz.tzFile Tz.tzLoading Tz.start app].
  destruct (net (baseUrl ++ lit ".sha256")) as [r'|e].
  - destruct (Tz.answer_text r') as [body|e].
    + rewrite tz_token_run. eexists. split; reflexivity.
    + eexists. split; reflexivity.
  - eexists. split; reflexivity.
Qed.

(** X9.  Whatever the network answers, the time-zone section ends with its
    loading flag cleared and never shows the spinner for good.  When the
    metadata request rejects or its body is not JSON, no file is set, the
    table body is empty, and the checksum is never requested. *)
Theorem tz_section_always_settles (baseUrl kind : jsstring) (net : Tz.Net) :
  let s := snd (Tz.effect baseUrl kind net Tz.start) in
  Tz.tzLoading Tz.start = true /\
  Tz.tzLoading s = false /\
  Tz.view s <> Tz.Spinner /\
  ((exists e, net (baseUrl ++ lit ".metadata") = Rejected e) \/
   (exists r e, net (baseUrl ++ lit ".metadata") = Fulfilled r /\
                Tz.answer_json r = Rejected e) ->
   Tz.tzFile s = None /\
   Tz.view s = Tz.Nothing /\
   Tz.asked s = [baseUrl ++ lit ".metadata"]).
Proof.
  intros s. split; [reflexivity|].
  assert (Hload : Tz.tzLoading s = false).
  { unfold s. destruct (net (baseUrl ++ lit ".metadata")) as [r|e] eqn:Hr.
    - destruct (Tz.answer_json r) as [meta|e] eqn:Hm.
      + destruct (tz_effect_loaded baseUrl kind net Hr Hm) as (sha & -> & _).
        reflexivity.
      + rewrite (@tz_effect_failed baseUrl kind net); [reflexivity|].
        right. eauto.
    - rewrite (@tz_effect_failed baseUrl kind net); [reflexivity|]. left. eauto. }
  split; [exact Hload|]. split.
  - unfold Tz.view. rewrite Hload. destruct (Tz.tzFile s); discriminate.
  - intros Hfail. unfold s. rewrite (@tz_effect_failed baseUrl kind net Hfail).
    repeat split.
Qed.

(** X9 with the network down, on the first page. *)
Lemma tz_section_always_settles_witness :
  Tz.view (PlanetTz.Page TzSample.offline) = Tz.Nothing /\
  Tz.asked (PlanetTz.Page TzSample.offline)
  = [PlanetTz.baseUrl ++ lit ".metadata"].
Proof.
  destruct (proj2 (proj2 (proj2
              (@tz_section_always_settles PlanetTz.baseUrl (lit "PARQUET")
                 TzSample.offline))))
    as (_ & Hview & Hasked).
  - left. exists NetworkFailure. reflexivity.
  - split; [exact Hview | exact Hasked].
Defined.

(** X10.  When the metadata is served, the section requests the checksum
    next and sets a file whatever the checksum request gives: the file has
    the address of the page, its last path segment for a name, [created] and
    [size] as the metadata has them, and for [sha256] the trimmed text before
    the first space of the companion, or ["N/A"] if the request or the
    reading of its body rejected. *)
Theorem tz_section_sets_file
    (baseUrl label : jsstring) (net : Tz.Net) (r : Tz.Answer) (meta : Meta.t) :
  net (baseUrl ++ lit ".metadata") = Fulfilled r ->
  Tz.answer_json r = Fulfilled meta ->
  let s := snd (Tz.effect baseUrl label net Tz.start) in
  exists file sha,
    Tz.tzFile s = Some file /\
    Tz.view s = Tz.Row file /\
    Tz.asked s = [baseUrl ++ lit ".metadata"; baseUrl ++ lit ".sha256"] /\
    url file = baseUrl /\
    filename file = or_empty (pop (split slash baseUrl)) /\
    kind file = label /\
    created file = Meta.created meta /\
    size file = Meta.size meta /\
    sha256 file = Some sha /\
    ~ In space sha /\
    ((exists e, net (baseUrl ++ lit ".sha256") = Rejected e) \/
     (exists r' e, net (baseUrl ++ lit ".sha256") = Fulfilled r' /\
                   Tz.answer_text r' = Rejected e) ->
     sha = lit "N/A") /\
    (forall r' body,
        net (baseUrl ++ lit ".sha256") = Fulfilled r' ->
        Tz.answer_text r' = Fulfilled body ->
        sha = trim (hd [] (split space body))).
Proof.
  intros Hr Hmeta s.
  destruct (tz_effect_loaded baseUrl label net Hr Hmeta) as (sha & Hs & Hsha).
  unfold s. rewrite Hs. eexists. exists sha.
  repeat split.
  - destruct (net (baseUrl ++ lit ".sha256")) as [r'|e].
    + destruct (Tz.answer_text r') as [body|e]; subst sha.
      * intros H. apply trim_incl in H. now apply split_hd_no_sep in H.
      * apply NA_no_space.
    + subst sha. apply NA_no_space.
  - intros [[e He]|(r' & e & Hr' & He)].
    + now rewrite He in Hsha.
    + now rewrite Hr', He in Hsha.
  - intros r' body Hr' Hbody. now rewrite Hr', Hbody in Hsha.
Qed.

(** X10 on the first page: everything served, and the checksum missing. *)
Lemma tz_section_sets_file_witness :
  Tz.tzFile (PlanetTz.Page TzSample.serving) = Some TzSample.tz_record /\
  exists file,
    Tz.tzFile (PlanetTz.Page TzSample.no_checksum) = Some file /\
    sha256 file = Some (lit "N/A").
Proof.
  split; [reflexivity|].
  destruct (@tz_section_sets_file PlanetTz.baseUrl (lit "PARQUET")
              TzSample.no_checksum
              {| Tz.answer_status := 200; Tz.answer_text := Fulfilled [];
                 Tz.answer_json := Fulfilled TzSample.meta |}
              TzSample.meta eq_refl eq_refl)
    as (file & sha & Hfile & _ & _ & _ & _ & _ & _ & _ & Hsha & _ & Hna & _).
  exists file. split; [exact Hfile|].
  rewrite Hsha, Hna; [reflexivity|].
  left. exists NetworkFailure. reflexivity.
Defined.

(* ================================================================== *)
(** ** Further properties of the loader                                 *)
(* ================================================================== *)

Section Stability.
Variable A : Type.
Variable cmp : A -> A -> Z.
Hypothesis Hcmp : consistent cmp.

(** Two elements that compare equal to a third are in order. *)
Lemma cmp_equal_le (x a y : A) :
  cmp x a = 0%Z -> cmp x y = 0%Z -> (cmp a y <= 0)%Z.
Proof.
  intros Ha Hy. apply (cmp_trans Hcmp) with x; [|lia].
  destruct (Z.leb_spec (cmp a x) 0) as [H|H]; [exact H|].
  apply (cmp_sign Hcmp x a) in H. lia.
Qed.

Lemma insert_filter (x a : A) (l : list A) :
  filter (fun y => cmp x y =? 0)%Z (insert cmp a l) =
  filter (fun y => cmp x y =? 0)%Z (a :: l).
Proof.
  induction l as [|y r IH]; [reflexivity|].
  cbn [insert]. destruct (Z.leb_spec (cmp a y) 0) as [Hle|Hgt]; [reflexivity|].
  cbn [filter] in *. rewrite IH.
  destruct (Z.eqb_spec (cmp x a) 0) as [Ha|_]; [|reflexivity].
  destruct (Z.eqb_spec (cmp x y) 0) as [Hy|_]; [|reflexivity].
  pose proof (@cmp_equal_le x a y Ha Hy). lia.
Qed.

(** The sort keeps the order of the elements of one class. *)
Lemma sort_stable (x : A) (l : list A) :
  filter (fun y => cmp x y =? 0)%Z (sort cmp l) =
  filter (fun y => cmp x y =? 0)%Z l.
Proof.
  induction l as [|a r IH]; [reflexivity|].
  cbn [sort]. rewrite insert_filter. cbn [filter]. now rewrite IH.
Qed.
End Stability.

(** X11.  On the two pages that sort, the records of one extension are
    published in the order in which the enrichment returned them, which is
    the order of the manifest: the sort only moves records of different
    extensions past each other. *)
Theorem same_extension_keeps_manifest_order
    (toUpperCase : jsstring -> jsstring)
    (localeCompare : jsstring -> jsstring -> Z)
    (net : Network) (res : Response) (ext : FileItem) :
  consistent localeCompare ->
  let same := fun r => (by_extension localeCompare ext r =? 0)%Z in
  (forall elements,
      net Planet.metadata_url = Fulfilled res ->
      json res = Fulfilled (FlatArray elements) ->
      exists out,
        fst (withHash (map (Planet.item_of toUpperCase) elements) net initial)
        = Fulfilled out /\
        filter same (files (Planet.Page toUpperCase localeCompare net))
        = filter same out) /\
  (forall categories,
      net Legacy.metadata_url = Fulfilled res ->
      json res = Fulfilled (ByCategory categories) ->
      exists out,
        fst (withHash (object_items categories) net initial) = Fulfilled out /\
        filter same (files (Legacy.Page localeCompare net))
        = filter same out).
Proof.
  intros Hcmp same.
  assert (Hext : consistent (by_extension localeCompare))
    by (unfold by_extension; now apply consistent_on).
  split.
  - intros elements Hnet Hjson. eexists. rewrite withHash_run.
    split; [reflexivity|].
    rewrite (@planet_loaded toUpperCase localeCompare _ _ _ Hnet Hjson).
    cbn [files]. unfold same. now apply sort_stable.
  - intros categories Hnet Hjson. eexists. rewrite withHash_run.
    split; [reflexivity|].
    rewrite (@legacy_loaded localeCompare _ _ _ Hnet Hjson).
    cbn [files]. unfold same. now apply sort_stable.
Qed.

(** X11 on three files, two of them [pbf]: [b.osm.pbf] stays ahead of
    [a.osm.pbf]. *)
Lemma same_extension_keeps_manifest_order_witness :
  map filename
    (filter (fun r => (by_extension lex_compare Sample.a_pbf r =? 0)%Z)
       (files PlanetSample.page))
  = [lit "b.osm.pbf"; lit "a.osm.pbf"].
Proof.
  destruct (proj1 (@same_extension_keeps_manifest_order
                     Sample.ascii_upper lex_compare PlanetSample.net
                     PlanetSample.manifest_answer Sample.a_pbf
                     lex_compare_consistent)
                  _ eq_refl eq_refl)
    as (out & Hout & Hsame).
  unfold PlanetSample.page. rewrite Hsame.
  injection Hout as <-. reflexivity.
Defined.

Example three_files_published :
  map filename (files PlanetSample.page)
  = [lit "planet.gol"; lit "b.osm.pbf"; lit "a.osm.pbf"].
Proof. vm_compute. reflexivity. Qed.

(** A manifest of the other page's shape. *)
Lemma page_tsx_on_array (net : Network) (res : Response)
    (elements : list PlanetMetadata.t) :
  net PageTsx.metadata_url = Fulfilled res ->
  json res = Fulfilled (FlatArray elements) ->
  PageTsx.effect net initial =
  (match elements with [] => Fulfilled tt | _ :: _ => Rejected TypeError end,
   {| requests := [PageTsx.metadata_url]; files := []; loading := false |}).
Proof.
  intros Hnet Hjson.
  unfold PageTsx.effect, try_finally, bind, fetch, await.
  rewrite Hnet, Hjson. destruct elements; reflexivity.
Qed.

Lemma legacy_on_array (localeCompare : jsstring -> jsstring -> Z)
    (net : Network) (res : Response) (elements : list PlanetMetadata.t) :
  net Legacy.metadata_url = Fulfilled res ->
  json res = Fulfilled (FlatArray elements) ->
  Legacy.effect localeCompare net initial =
  (match elements with [] => Fulfilled tt | _ :: _ => Rejected TypeError end,
   {| requests := [Legacy.metadata_url]; files := []; loading := false |}).
Proof.
  intros Hnet Hjson.
  unfold Legacy.effect, try_finally, bind, fetch, await.
  rewrite Hnet, Hjson. destruct elements; reflexivity.
Qed.

Lemma planet_on_object (toUpperCase : jsstring -> jsstring)
    (localeCompare : jsstring -> jsstring -> Z)
    (net : Network) (res : Response)
    (categories : list (jsstring * list Entry.t)) :
  net Planet.metadata_url = Fulfilled res ->
  json res = Fulfilled (ByCategory categories) ->
  Planet.effect toUpperCase localeCompare net initial =
  (Rejected TypeError,
   {| requests := [Planet.metadata_url]; files := []; loading := false |}).
Proof.
  intros Hnet Hjson.
  unfold Planet.effect, try_finally, bind, fetch, await.
  rewrite Hnet, Hjson. reflexivity.
Qed.

(** X12.  A page that is served a manifest of the other shape publishes
    nothing, requests no checksum and still clears its loading flag.  The
    object pages throw on a non-empty array and take an empty one for an
    empty manifest; the array page throws on every object, the empty one
    too. *)
Theorem manifest_of_the_other_shape
    (toUpperCase : jsstring -> jsstring)
    (localeCompare : jsstring -> jsstring -> Z)
    (net : Network) (res : Response) :
  (forall elements,
      net PageTsx.metadata_url = Fulfilled res ->
      json res = Fulfilled (FlatArray elements) ->
      PageTsx.Page net =
      {| requests := [PageTsx.metadata_url]; files := []; loading := false |} /\
      (elements <> [] -> fst (PageTsx.effect net initial) = Rejected TypeError) /\
      (elements = [] -> fst (PageTsx.effect net initial) = Fulfilled tt)) /\
  (forall elements,
      net Legacy.metadata_url = Fulfilled res ->
      json res = Fulfilled (FlatArray elements) ->
      Legacy.Page localeCompare net =
      {| requests := [Legacy.metadata_url]; files := []; loading := false |} /\
      (elements <> [] ->
       fst (Legacy.effect localeCompare net initial) = Rejected TypeError)) /\
  (forall categories,
      net Planet.metadata_url = Fulfilled res ->
      json res = Fulfilled (ByCategory categories) ->
      Planet.Page toUpperCase localeCompare net =
      {| requests := [Planet.metadata_url]; files := []; loading := false |} /\
      fst (Planet.effect toUpperCase localeCompare net initial)
      = Rejected TypeError).
Proof.
  split; [|split].
  - intros elements Hnet Hjson. unfold PageTsx.Page.
    rewrite (page_tsx_on_array net Hnet Hjson). cbn [fst snd].
    split; [reflexivity|]. split; intros H; destruct elements; congruence.
  - intros elements Hnet Hjson. unfold Legacy.Page.
    rewrite (legacy_on_array localeCompare net Hnet Hjson). cbn [fst snd].
    split; [reflexivity|]. intros H; destruct elements; congruence.
  - intros categories Hnet Hjson. unfold Planet.Page.
    rewrite (planet_on_object toUpperCase localeCompare net Hnet Hjson).
    split; reflexivity.
Qed.

(** X12: the array page served the object manifest of the other pages. *)
Lemma manifest_of_the_other_shape_witness :
  files (Planet.Page Sample.ascii_upper lex_compare
           (Sample.serving Planet.metadata_url Sample.two_formats)) = [] /\
  loading (Planet.Page Sample.ascii_upper lex_compare
             (Sample.serving Planet.metadata_url Sample.two_formats)) = false.
Proof.
  destruct (proj2 (proj2 (@manifest_of_the_other_shape
              Sample.ascii_upper lex_compare
              (Sample.serving Planet.metadata_url Sample.two_formats)
              {| status := 200; text := Fulfilled [];
                 json := Fulfilled Sample.two_formats |}))
            _ eq_refl eq_refl) as [Hpage _].
  rewrite Hpage. split; reflexivity.
Defined.

Lemma checksum_url_enriched (net : Network) (items : list FileItem) :
  map checksum_url (map (enriched net) items) = map checksum_url items.
Proof. rewrite map_map. reflexivity. Qed.

(** The manifest of a page is one of: failed, object, array. *)
Lemma manifest_cases (net : Network) (address : jsstring) :
  manifest_rejected net address \/
  exists res,
    net address = Fulfilled res /\
    ((exists categories, json res = Fulfilled (ByCategory categories)) \/
     (exists elements, json res = Fulfilled (FlatArray elements))).
Proof.
  destruct (net address) as [res|e] eqn:Hnet.
  - destruct (json res) as [[categories|elements]|e] eqn:Hjson.
    + right. exists res. split; [reflexivity|]. left. eauto.
    + right. exists res. split; [reflexivity|]. right. eauto.
    + left. right. exists res, e. split; assumption.
  - left. left. exists e. exact Hnet.
Qed.




(** X13.  For every outcome of the manifest request that the model
    covers (the request rejects, its body is not JSON, or it is a manifest of
    either shape whose entries carry the fields of their declared types), a
    page requests its manifest first and then exactly the checksum companions
    of the records it publishes, one each: in publication order on
    [page.tsx], and up to the reordering of the sort on the two other
    pages.  Entries that lack a declared field are outside the model. *)
Theorem requests_match_published_records
    (toUpperCase : jsstring -> jsstring)
    (localeCompare : jsstring -> jsstring -> Z) (net : Network) :
  requests (PageTsx.Page net)
  = PageTsx.metadata_url :: map checksum_url (files (PageTsx.Page net)) /\
  (exists rest,
      requests (Planet.Page toUpperCase localeCompare net)
      = Planet.metadata_url :: rest /\
      Permutation rest
        (map checksum_url (files (Planet.Page toUpperCase localeCompare net)))) /\
  (exists rest,
      requests (Legacy.Page localeCompare net) = Legacy.metadata_url :: rest /\
      Permutation rest
        (map checksum_url (files (Legacy.Page localeCompare net)))).
Proof.
  split; [|split].
  - destruct (manifest_cases net PageTsx.metadata_url)
      as [Hfail|(res & Hnet & [[categories Hjson]|[elements Hjson]])].
    + rewrite (@page_tsx_failed net Hfail). reflexivity.
    + rewrite (@page_tsx_loaded _ _ _ Hnet Hjson). cbn [requests files].
      now rewrite checksum_url_enriched.
    + unfold PageTsx.Page. rewrite (page_tsx_on_array net Hnet Hjson). reflexivity.
  - destruct (manifest_cases net Planet.metadata_url)
      as [Hfail|(res & Hnet & [[categories Hjson]|[elements Hjson]])].
    + rewrite (@planet_failed toUpperCase localeCompare net Hfail).
      exists []. split; [reflexivity | constructor].
    + unfold Planet.Page.
      rewrite (planet_on_object toUpperCase localeCompare net Hnet Hjson).
      exists []. split; [reflexivity | constructor].
    + rewrite (@planet_loaded toUpperCase localeCompare _ _ _ Hnet Hjson).
      eexists. split; [reflexivity|]. cbn [files].
      rewrite <- (checksum_url_enriched net).
      apply Permutation_map, Permutation_sym, sort_perm.
  - destruct (manifest_cases net Legacy.metadata_url)
      as [Hfail|(res & Hnet & [[categories Hjson]|[elements Hjson]])].
    + rewrite (@legacy_failed localeCompare net Hfail).
      exists []. split; [reflexivity | constructor].
    + rewrite (@legacy_loaded localeCompare _ _ _ Hnet Hjson).
      eexists. split; [reflexivity|]. cbn [files].
      rewrite <- (checksum_url_enriched net).
      apply Permutation_map, Permutation_sym, sort_perm.
    + unfold Legacy.Page.
      rewrite (legacy_on_array localeCompare net Hnet Hjson).
      exists []. split; [reflexivity | constructor].
Qed.

(* ================================================================== *)
(** ** File names and extensions                                        *)
(* ================================================================== *)

Lemma pop_app_last (A : Type) (l : list A) (x : A) : pop (l ++ [x]) = Some x.
Proof.
  induction l as [|y r IH]; [reflexivity|].
  simpl. rewrite IH. destruct (r ++ [x]) eqn:E; [|reflexivity].
  now apply app_eq_nil in E as [_ E].
Qed.

Lemma pop_In (A : Type) (l : list A) (x : A) : pop l = Some x -> In x l.
Proof.
  induction l as [|y r IH]; [discriminate|].
  simpl. destruct r as [|z r']; [intros [= ->]; now left | right; now apply IH].
Qed.

(** What follows the last separator is the last piece of the split. *)
Lemma split_last (sep : code_unit) (p name : jsstring) :
  ~ In sep name ->
  exists f0 front, split sep (p ++ sep :: name) = (f0 :: front) ++ [name].
Proof.
  intros Hname. induction p as [|c p (f0 & front & IH)].
  - exists [], []. simpl app. rewrite split_cons_sep.
    now rewrite split_no_sep.
  - rewrite <- app_comm_cons. destruct (N.eq_dec c sep) as [->|Hc].
    + rewrite split_cons_sep, IH. now exists [], (f0 :: front).
    + rewrite split_cons_other, IH by assumption. simpl.
      now exists (c :: f0), front.
Qed.

Lemma split_pieces_no_sep (sep : code_unit) (s : jsstring) :
  Forall (fun p => ~ In sep p) (split sep s).
Proof.
  induction s as [|c r IH]; [repeat constructor; tauto|].
  destruct (N.eq_dec c sep) as [->|Hc].
  - rewrite split_cons_sep. constructor; [tauto | exact IH].
  - rewrite split_cons_other by assumption.
    destruct (split sep r) as [|p ps] eqn:E; [now apply split_not_nil in E|].
    inversion IH; subst. simpl. constructor; [|assumption].
    intros [H|H]; [now apply Hc | contradiction].
Qed.

Lemma last_piece (sep : code_unit) (p name : jsstring) :
  ~ In sep name ->
  or_empty (pop (split sep (p ++ sep :: name))) = name.
Proof.
  intros Hname. destruct (@split_last sep p name Hname) as (f0 & front & ->).
  rewrite pop_app_last. now destruct name.
Qed.

Lemma only_piece (sep : code_unit) (s : jsstring) :
  ~ In sep s -> or_empty (pop (split sep s)) = s.
Proof.
  intros H. rewrite split_no_sep by assumption. now destruct s.
Qed.

(** X14.  On the object pages the file name of a record is what follows
    the last slash of its address, and the whole address when it has no
    slash.  The address the array page builds ends in the manifest's file
    name, so the name that page stores is the one the object pages would
    derive from the address, provided the name holds no slash. *)
Theorem filename_is_last_segment
    (toUpperCase : jsstring -> jsstring) (category : jsstring)
    (e : Entry.t) (item : PlanetMetadata.t) :
  (forall p name,
      Entry.url e = p ++ slash :: name -> ~ In slash name ->
      filename (PageTsx.item_of category e) = name) /\
  (~ In slash (Entry.url e) ->
   filename (PageTsx.item_of category e) = Entry.url e) /\
  (~ In slash (PlanetMetadata.remote_filename item) ->
   or_empty (pop (split slash (url (Planet.item_of toUpperCase item))))
   = filename (Planet.item_of toUpperCase item)).
Proof.
  split; [|split].
  - intros p name Hurl Hname. unfold PageTsx.item_of. cbn [filename].
    rewrite Hurl. now apply last_piece.
  - intros Hurl. unfold PageTsx.item_of. cbn [filename]. now apply only_piece.
  - intros Hname. unfold Planet.item_of. cbn [filename url].
    rewrite !app_assoc.
    change (lit "/") with [slash].
    rewrite <- app_assoc. now apply last_piece.
Qed.

(** X14 on the address of the specification's scenario. *)
Lemma filename_is_last_segment_witness :
  filename (PageTsx.item_of (lit "pbf")
              (Sample.entry "https://x/a.pbf" (Str (lit "100"))))
  = lit "a.pbf".
Proof.
  refine (proj1 (@filename_is_last_segment Sample.ascii_upper (lit "pbf")
                   (Sample.entry "https://x/a.pbf" (Str (lit "100")))
                   (Sample.planet_element "pbf" "planet.osm.pbf" (Num (of_Z 1))))
                (lit "https://x") (lit "a.pbf") eq_refl _).
  apply absent_by_test. reflexivity.
Defined.

(** X15.  The extension by which the pages sort is what follows the last
    dot of the file name; a name without a dot is its own extension, a name
    that ends in a dot has the empty one; and an extension never holds a
    dot. *)
Theorem extension_is_after_last_dot (f : FileItem) :
  (forall stem ext,
      filename f = stem ++ dot :: ext -> ~ In dot ext -> extension f = ext) /\
  (~ In dot (filename f) -> extension f = filename f) /\
  ~ In dot (extension f).
Proof.
  unfold extension. split; [|split].
  - intros stem ext Hname Hext. rewrite Hname. now apply last_piece.
  - intros Hname. now apply only_piece.
  - destruct (pop (split dot (filename f))) as [p|] eqn:E; [|simpl; tauto].
    apply pop_In in E.
    pose proof (split_pieces_no_sep dot (filename f)) as Hall.
    rewrite Forall_forall in Hall. specialize (Hall p E).
    destruct p; simpl; [tauto | exact Hall].
Qed.

(** X15 on [planet.osm.pbf]. *)
Lemma extension_is_after_last_dot_witness :
  extension (Planet.item_of Sample.ascii_upper
               (Sample.planet_element "pbf" "planet.osm.pbf" (Num (of_Z 1))))
  = lit "pbf".
Proof.
  refine (proj1 (@extension_is_after_last_dot
                   (Planet.item_of Sample.ascii_upper
                      (Sample.planet_element "pbf" "planet.osm.pbf" (Num (of_Z 1)))))
                (lit "planet.osm") (lit "pbf") eq_refl _).
  apply absent_by_test. reflexivity.
Defined.

(* ================================================================== *)
(** ** Sizes that are not plain digit strings                            *)
(* ================================================================== *)






